(** * password_generator.py: a shallow embedding of [PasswordGenerator]

    The three methods of the class are modelled over a small Python
    runtime: strings are sequences of Unicode code points, integers are
    [Z], a method is a state transformer over the world it can observe
    (the instance's attributes and the system entropy source) that either
    returns a value or raises. *)

From Stdlib Require Import ZArith NArith List String Ascii Bool Lia DecimalString.
From Stdlib Require Import Permutation.
Import ListNotations.
Open Scope Z_scope.

(** ** Python runtime *)

Module Py.

(** A character is a Unicode code point; a [str] is a sequence of them. *)
Definition char := N.
Definition str := list char.

(** Decoding of the UTF-8 bytes of a literal of this file into code
    points: [acc] holds the bits read so far of a multi-byte sequence,
    [more] the number of continuation bytes still expected. *)
Fixpoint decode_utf8 (bytes : string) (acc : N) (more : nat) : str :=
  match bytes with
  | EmptyString => []
  | String a rest =>
      let b := N_of_ascii a in
      match more with
      | O =>
          if (b <? 128)%N then b :: decode_utf8 rest 0%N 0%nat
          else if (b <? 224)%N then decode_utf8 rest (b mod 32)%N 1%nat
          else if (b <? 240)%N then decode_utf8 rest (b mod 16)%N 2%nat
          else decode_utf8 rest (b mod 8)%N 3%nat
      | S O => (acc * 64 + b mod 64)%N :: decode_utf8 rest 0%N 0%nat
      | S m => decode_utf8 rest (acc * 64 + b mod 64)%N m
      end
  end.

Definition lit (s : string) : str := decode_utf8 s 0%N 0%nat.

(** [len(s)] *)
Definition len {A} (s : list A) : Z := Z.of_nat (List.length s).

(** [c in s] for a one-character [c]. *)
Definition contains (s : str) (c : char) : bool := existsb (N.eqb c) s.

(** [any(f(c) for c in s)] *)
Definition any {A} (f : A -> bool) (s : list A) : bool := existsb f s.

(** [''.join(parts)] *)
Definition join (parts : list str) : str := List.concat parts.

(** [range(n)]: empty when [n <= 0]. *)
Definition range (n : Z) : list Z := map Z.of_nat (seq 0 (Z.to_nat n)).

(** [str(n)] for an integer. *)
Definition str_of_int (n : Z) : str := lit (NilZero.string_of_int (Z.to_int n)).

(** *** Character classification

    [str.islower], [str.isupper] and [str.isdigit] on one character read
    the interpreter's Unicode database.  On the ASCII range their values
    are written out; beyond it the database is a parameter. *)
Record UnicodeData := {
  ucd_lowercase : char -> bool;
  ucd_uppercase : char -> bool;
  ucd_digit : char -> bool
}.

Definition between (lo hi c : N) : bool := ((lo <=? c) && (c <=? hi))%N.

Definition islower (ucd : UnicodeData) (c : char) : bool :=
  if (c <? 128)%N then between 97 122 c else ucd_lowercase ucd c.

Definition isupper (ucd : UnicodeData) (c : char) : bool :=
  if (c <? 128)%N then between 65 90 c else ucd_uppercase ucd c.

Definition isdigit (ucd : UnicodeData) (c : char) : bool :=
  if (c <? 128)%N then between 48 57 c else ucd_digit ucd c.

(** [str.capitalize] on ASCII text: the first character upper-cased, the
    others lower-cased.  Code points outside ASCII are left as they are;
    the method is only applied to the words of the fixed word list. *)
Definition ascii_upper (c : char) : char := if between 97 122 c then (c - 32)%N else c.
Definition ascii_lower (c : char) : char := if between 65 90 c then (c + 32)%N else c.

Definition capitalize (s : str) : str :=
  match s with
  | [] => []
  | c :: rest => ascii_upper c :: map ascii_lower rest
  end.

(** [string.ascii_lowercase], [string.ascii_uppercase], [string.digits] *)
Definition ascii_lowercase : str := lit "abcdefghijklmnopqrstuvwxyz".
Definition ascii_uppercase : str := lit "ABCDEFGHIJKLMNOPQRSTUVWXYZ".
Definition string_digits : str := lit "0123456789".

(** *** Exceptions and results *)
Inductive exn := IndexError | ValueError | KeyError.

Inductive result (A : Type) :=
| Ok (a : A)
| Raise (e : exn).
Arguments Ok {A} a.
Arguments Raise {A} e.

(** [d[k]] on a dict literal, kept as its list of items. *)
Fixpoint dict_get {V} (d : list (Z * V)) (k : Z) : option V :=
  match d with
  | [] => None
  | (k', v) :: rest => if k =? k' then Some v else dict_get rest k
  end.

End Py.
Import Py.

(** ** The world a method runs in *)

(** The attributes set by [__init__]; they are ordinary instance
    attributes, so a method reads whatever they hold when it runs. *)
Record PasswordGenerator := {
  lowercase : str;
  uppercase : str;
  digits : str;
  symbols : str
}.

(** [self], the entropy of the system random source (the [i]-th raw draw)
    and the number of draws consumed so far. *)
Record World := {
  self : PasswordGenerator;
  entropy : nat -> N;
  drawn : nat
}.

Definition M (A : Type) : Type := World -> result A * World.

Definition ret {A} (a : A) : M A := fun w => (Ok a, w).

Definition raise {A} (e : exn) : M A := fun w => (Raise e, w).

Definition bind {A B} (m : M A) (k : A -> M B) : M B :=
  fun w =>
    match m w with
    | (Ok a, w') => k a w'
    | (Raise e, w') => (Raise e, w')
    end.

Notation "x <- m ;; k" := (bind m (fun x => k))
  (at level 61, m at next level, right associativity).

(** [self.attr] *)
Definition getattr {A} (attr : PasswordGenerator -> A) : M A :=
  fun w => (Ok (attr (self w)), w).

(** A comprehension [f(x) for x in l] whose body has effects. *)
Fixpoint comprehension {A B} (f : A -> M B) (l : list A) : M (list B) :=
  match l with
  | [] => ret []
  | x :: rest =>
      y <- f x ;;
      ys <- comprehension f rest ;;
      ret (y :: ys)
  end.

(** [any(f(c) for c in s)] with an effectful body; stops at the first hit. *)
Fixpoint any_gen {A} (f : A -> M bool) (s : list A) : M bool :=
  match s with
  | [] => ret false
  | c :: rest =>
      b <- f c ;;
      if b then ret true else any_gen f rest
  end.

(** *** The [secrets] module *)

Definition advance (w : World) : World :=
  {| self := self w; entropy := entropy w; drawn := S (drawn w) |}.

(** [secrets.randbelow(n)]: a number in [[0, n)] fixed by the next raw
    draw; [ValueError] when [n] is not positive. *)
Definition randbelow (n : Z) : M Z :=
  fun w =>
    if n <=? 0 then (Raise ValueError, w)
    else (Ok (Z.of_N (entropy w (drawn w)) mod n), advance w).

(** [seq[i]] for an index known to be in range. *)
Definition getitem {A} (seq : list A) (i : Z) : M A :=
  match nth_error seq (Z.to_nat i) with
  | Some x => ret x
  | None => raise IndexError
  end.

(** [secrets.choice(seq)]: [IndexError] on an empty sequence. *)
Definition choice {A} (seq : list A) : M A :=
  if len seq =? 0 then raise IndexError
  else
    i <- randbelow (len seq) ;;
    getitem seq i.

(** ** The class *)

(** [PasswordGenerator.__init__] *)
Definition init : PasswordGenerator := {|
  lowercase := ascii_lowercase;
  uppercase := ascii_uppercase;
  digits := string_digits;
  symbols := lit "!@#$%^&*()_+-=[]{}|;:,.<>?"
|}.

(** A world right after [generator = PasswordGenerator()]. *)
Definition boot (ent : nat -> N) (k : nat) : World :=
  {| self := init; entropy := ent; drawn := k |}.

(** [PasswordGenerator.generate_password] *)
Definition generate_password (length : Z)
    (use_uppercase use_digits use_symbols exclude_ambiguous : bool) : M str :=
  characters <- getattr lowercase ;;
  characters <- (if use_uppercase
                 then (u <- getattr uppercase ;; ret (characters ++ u))
                 else ret characters) ;;
  characters <- (if use_digits
                 then (d <- getattr digits ;; ret (characters ++ d))
                 else ret characters) ;;
  characters <- (if use_symbols
                 then (s <- getattr symbols ;; ret (characters ++ s))
                 else ret characters) ;;
  let characters :=
    if exclude_ambiguous then
      let ambiguous := lit "0Ol1" in
      filter (fun char => negb (contains ambiguous char)) characters
    else characters in
  password <- comprehension (fun _ => choice characters) (range length) ;;
  ret password.

(** The word list of [generate_memorable_password]. *)
Definition words : list str :=
  map lit
    ["apple"; "banana"; "cherry"; "dragon"; "eagle"; "forest"; "guitar"; "house";
     "island"; "jungle"; "kitchen"; "lion"; "mountain"; "ocean"; "piano"; "queen";
     "river"; "sunset"; "tiger"; "universe"; "village"; "window"; "yellow"; "zebra"]%string.

(** [PasswordGenerator.generate_memorable_password] *)
Definition generate_memorable_password (num_words : Z) : M str :=
  selected_words <- comprehension (fun _ => choice words) (range num_words) ;;
  let password_words := map capitalize selected_words in
  suffix <- randbelow 100 ;;
  let password := join password_words ++ str_of_int suffix in
  ret password.

(** The value returned by [check_password_strength]: a dict with the keys
    ["score"], ["strength"] and ["feedback"]. *)
Record StrengthResult := {
  score : Z;
  strength : str;
  feedback : list str
}.

Definition strength_levels : list (Z * str) :=
  [ (0, lit "Очень слабый");
    (1, lit "Слабый");
    (2, lit "Средний");
    (3, lit "Хороший");
    (4, lit "Сильный");
    (5, lit "Очень сильный");
    (6, lit "Отличный") ].

Definition msg_length : str := lit "Пароль должен содержать минимум 8 символов".
Definition msg_lower : str := lit "Добавьте строчные буквы".
Definition msg_upper : str := lit "Добавьте заглавные буквы".
Definition msg_digits : str := lit "Добавьте цифры".
Definition msg_symbols : str := lit "Добавьте специальные символы".

(** One [if test: score += 1 / else: feedback.append(msg)] statement. *)
Definition check (test : bool) (msg : str) (st : Z * list str) : Z * list str :=
  let '(score, feedback) := st in
  if test then (score + 1, feedback) else (score, feedback ++ [msg]).

Section Scorer.

Variable ucd : UnicodeData.

(** [PasswordGenerator.check_password_strength] *)
Definition check_password_strength (password : str) : M StrengthResult :=
  let st := (0, []) in
  let st := check (8 <=? len password) msg_length st in
  let st := check (any (islower ucd) password) msg_lower st in
  let st := check (any (isupper ucd) password) msg_upper st in
  let st := check (any (isdigit ucd) password) msg_digits st in
  has_symbol <- any_gen (fun c => s <- getattr symbols ;; ret (contains s c)) password ;;
  let st := check has_symbol msg_symbols st in
  let '(score, feedback) := st in
  let score := if 12 <=? len password then score + 1 else score in
  match dict_get strength_levels score with
  | Some label => ret {| score := score; strength := label; feedback := feedback |}
  | None => raise KeyError
  end.

End Scorer.

(** ** The console and [main] *)

(** The line feed of ["\n"]. *)
Definition nl : str := [10%N].

(** [a == b] on strings. *)
Fixpoint str_eqb (a b : str) : bool :=
  match a, b with
  | [], [] => true
  | x :: a', y :: b' => (x =? y)%N && str_eqb a' b'
  | _, _ => false
  end.

(** [a or b] on strings: [a] unless it is empty. *)
Definition str_or (a b : str) : str :=
  match a with
  | [] => b
  | _ :: _ => a
  end.

(** [s * n] *)
Definition str_mul (s : str) (n : nat) : str := List.concat (repeat s n).

(** What [main] asks of the interpreter beyond the cases written out
    below: [int] on a string that is not a plain run of ASCII digits
    ([None] stands for [ValueError]), [str.lower] on a string with
    characters outside ASCII, and the Unicode database. *)
Record Runtime := {
  rt_ucd : UnicodeData;
  rt_int : str -> option Z;
  rt_lower : str -> str
}.

(** A non-empty run of ASCII digits within the interpreter's limit on
    the digits of an integer string. *)
Definition plain_decimal (s : str) : bool :=
  (1 <=? len s) && (len s <=? 4300) && forallb (between 48 57) s.

(** [int(s)] on a string. *)
Definition int_of_str (rt : Runtime) (s : str) : result Z :=
  if len s =? 0 then Raise ValueError
  else if plain_decimal s then Ok (fold_left (fun acc c => acc * 10 + (Z.of_N c - 48)) s 0)
  else match rt_int rt s with
       | Some n => Ok n
       | None => Raise ValueError
       end.

(** [s.lower()] *)
Definition lower (rt : Runtime) (s : str) : str :=
  if forallb (fun c => (c <? 128)%N) s then map ascii_lower s else rt_lower rt s.

(** Standard input as the lines still to be read, standard output as
    the characters written so far. *)
Record Console := {
  stdin : list str;
  stdout : str
}.

(** An exception that leaves a computation of [main]: one of the
    methods' exceptions, or the [EOFError] of [input]. *)
Inductive failure := Uncaught (e : exn) | EOFError.

Inductive outcome (A : Type) :=
| Done (a : A)
| Failed (f : failure).
Arguments Done {A} a.
Arguments Failed {A} f.

Definition IO (A : Type) : Type := Console * World -> outcome A * (Console * World).

Definition io_ret {A} (a : A) : IO A := fun s => (Done a, s).

Definition io_bind {A B} (m : IO A) (k : A -> IO B) : IO B :=
  fun s =>
    match m s with
    | (Done a, s') => k a s'
    | (Failed f, s') => (Failed f, s')
    end.

Notation "x <~ m ;; k" := (io_bind m (fun x => k))
  (at level 61, m at next level, right associativity).

(** A method call, or any computation of the methods' monad. *)
Definition call {A} (m : M A) : IO A :=
  fun '(c, w) =>
    match m w with
    | (Ok a, w') => (Done a, (c, w'))
    | (Raise e, w') => (Failed (Uncaught e), (c, w'))
    end.

(** [print(s)] *)
Definition print (s : str) : IO unit :=
  fun '(c, w) => (Done tt, ({| stdin := stdin c; stdout := stdout c ++ s ++ nl |}, w)).

(** [input(prompt)]: the prompt is written, then a line is read;
    [EOFError] when there is none. *)
Definition input (prompt : str) : IO str :=
  fun '(c, w) =>
    match stdin c with
    | [] => (Failed EOFError, ({| stdin := []; stdout := stdout c ++ prompt |}, w))
    | line :: rest => (Done line, ({| stdin := rest; stdout := stdout c ++ prompt |}, w))
    end.

(** [try: body / except ValueError: handler] *)
Definition try_except_ValueError (body handler : IO unit) : IO unit :=
  fun s =>
    match body s with
    | (Failed (Uncaught ValueError), s') => handler s'
    | other => other
    end.

(** [for x in l: f(x)] *)
Fixpoint for_each {A} (f : A -> IO unit) (l : list A) : IO unit :=
  match l with
  | [] => io_ret tt
  | x :: rest => _ <~ f x ;; for_each f rest
  end.

(** How a round of the [while True] loop ends, and how a run of the
    loop with a bound on its rounds ends. *)
Inductive flow := Continue | Break.
Inductive run := Finished | OutOfFuel.

Fixpoint while_true (fuel : nat) (body : IO flow) : IO run :=
  match fuel with
  | O => io_ret OutOfFuel
  | S fuel' =>
      fl <~ body ;;
      match fl with
      | Break => io_ret Finished
      | Continue => while_true fuel' body
      end
  end.

(** [generator = PasswordGenerator()] *)
Definition new_generator : IO unit :=
  fun '(c, w) => (Done tt, (c, {| self := init; entropy := entropy w; drawn := drawn w |})).

Section Main.

Variable rt : Runtime.

(** The line [f"Сила пароля: {strength['strength']} ({strength['score']}/6)"]. *)
Definition strength_line (st : StrengthResult) : str :=
  lit "Сила пароля: " ++ strength st ++ lit " (" ++ str_of_int (score st) ++ lit "/6)".

(** The branch [if choice == "1"] of [main]. *)
Definition choice_1 : IO unit :=
  try_except_ValueError
    (line <~ input (lit "Длина пароля (по умолчанию 12): ") ;;
     length <~ call (fun w => (int_of_str rt (str_or line (lit "12")), w)) ;;
     answer <~ input (lit "Использовать заглавные буквы? (y/n): ") ;;
     let use_uppercase := negb (str_eqb (lower rt answer) (lit "n")) in
     answer <~ input (lit "Использовать цифры? (y/n): ") ;;
     let use_digits := negb (str_eqb (lower rt answer) (lit "n")) in
     answer <~ input (lit "Использовать символы? (y/n): ") ;;
     let use_symbols := negb (str_eqb (lower rt answer) (lit "n")) in
     answer <~ input (lit "Исключить двусмысленные символы? (y/n): ") ;;
     let exclude_ambiguous := str_eqb (lower rt answer) (lit "y") in
     password <~ call (generate_password length use_uppercase use_digits use_symbols
                         exclude_ambiguous) ;;
     _ <~ print (nl ++ lit "Сгенерированный пароль: " ++ password) ;;
     st <~ call (check_password_strength (rt_ucd rt) password) ;;
     print (strength_line st))
    (print (lit "Ошибка: введите корректное число")).

(** The branch [elif choice == "2"]. *)
Definition choice_2 : IO unit :=
  try_except_ValueError
    (line <~ input (lit "Количество слов (по умолчанию 4): ") ;;
     num_words <~ call (fun w => (int_of_str rt (str_or line (lit "4")), w)) ;;
     password <~ call (generate_memorable_password num_words) ;;
     _ <~ print (nl ++ lit "Запоминающийся пароль: " ++ password) ;;
     st <~ call (check_password_strength (rt_ucd rt) password) ;;
     print (strength_line st))
    (print (lit "Ошибка: введите корректное число")).

(** The branch [elif choice == "3"]. *)
Definition choice_3 : IO unit :=
  password <~ input (lit "Введите пароль для проверки: ") ;;
  match password with
  | _ :: _ =>
      st <~ call (check_password_strength (rt_ucd rt) password) ;;
      _ <~ print (nl ++ strength_line st) ;;
      match feedback st with
      | _ :: _ =>
          _ <~ print (lit "Рекомендации:") ;;
          for_each (fun tip => print (lit "  • " ++ tip)) (feedback st)
      | [] => io_ret tt
      end
  | [] => print (lit "Пароль не может быть пустым")
  end.

(** One round of the loop of [main]. *)
Definition menu_round : IO flow :=
  _ <~ print (lit "1. Сгенерировать обычный пароль") ;;
  _ <~ print (lit "2. Сгенерировать запоминающийся пароль") ;;
  _ <~ print (lit "3. Проверить силу пароля") ;;
  _ <~ print (lit "4. Выход") ;;
  choice <~ input (nl ++ lit "Выберите опцию (1-4): ") ;;
  fl <~ (if str_eqb choice (lit "1") then _ <~ choice_1 ;; io_ret Continue
         else if str_eqb choice (lit "2") then _ <~ choice_2 ;; io_ret Continue
         else if str_eqb choice (lit "3") then _ <~ choice_3 ;; io_ret Continue
         else if str_eqb choice (lit "4") then _ <~ print (lit "До свидания!") ;; io_ret Break
         else _ <~ print (lit "Неверный выбор. Попробуйте снова.") ;; io_ret Continue) ;;
  match fl with
  | Break => io_ret Break
  | Continue => _ <~ print (nl ++ str_mul (lit "=") 50 ++ nl) ;; io_ret Continue
  end.

(** [main], with a bound on the rounds of its loop. *)
Definition main (fuel : nat) : IO run :=
  _ <~ new_generator ;;
  _ <~ print (lit "=== ГЕНЕРАТОР ПАРОЛЕЙ ===" ++ nl) ;;
  while_true fuel menu_round.

End Main.

(** ** Vocabulary of the statements *)

(** The ambiguous characters of [generate_password]. *)
Definition ambiguous : str := lit "0Ol1".

(** The pool as the specification words it: lowercase, then each enabled
    class in the order uppercase, digits, symbols, and without the
    ambiguous characters when they are excluded. *)
Definition pool (g : PasswordGenerator)
    (use_uppercase use_digits use_symbols exclude_ambiguous : bool) : str :=
  let enabled :=
    ((lowercase g ++ (if use_uppercase then uppercase g else []))
       ++ (if use_digits then digits g else []))
      ++ (if use_symbols then symbols g else []) in
  if exclude_ambiguous
  then filter (fun c => negb (contains ambiguous c)) enabled
  else enabled.

(** The lowercase letters that are not ambiguous: all but [l]. *)
Definition plain_lowercase : str := lit "abcdefghijkmnopqrstuvwxyz".

(** The item of [xs] that [secrets.choice] returns on the raw draw [raw]. *)
Definition pick {A} (xs : list A) (d : A) (raw : N) : A :=
  nth (Z.to_nat (Z.of_N raw mod len xs)) xs d.

(** The world after [n] more draws. *)
Fixpoint jump (n : nat) (w : World) : World :=
  match n with
  | O => w
  | S n' => jump n' (advance w)
  end.

(** [s] is [word] with its first letter turned to upper case, [word]
    being made of lower-case ASCII letters. *)
Definition first_upper_rest_lower (word s : str) : Prop :=
  exists c rest,
    word = c :: rest /\
    between 97 122 c = true /\
    forallb (between 97 122) rest = true /\
    s = (c - 32)%N :: rest.

(** The integer a string of decimal digits reads as. *)
Definition parse_decimal (s : str) : Z :=
  fold_left (fun acc c => acc * 10 + (Z.of_N c - 48)) s 0.

(** [s] is the decimal rendering of [n] without padding, for [n] below
    100: one digit below 10 and two from 10 on, reading back as [n]. *)
Definition renders (n : Z) (s : str) : bool :=
  (len s =? (if n <? 10 then 1 else 2))
  && forallb (between 48 57) s
  && (parse_decimal s =? n).

(** The score and the feedback of [check_password_strength] in closed
    form, over the symbol set [syms] held by the instance. *)
Section ClosedForm.

Variable ucd : UnicodeData.
Variable syms : str.

Definition points (p : str) : Z :=
  Z.b2z (8 <=? len p) + Z.b2z (any (islower ucd) p) + Z.b2z (any (isupper ucd) p)
  + Z.b2z (any (isdigit ucd) p) + Z.b2z (any (contains syms) p) + Z.b2z (12 <=? len p).

Definition advice (p : str) : list str :=
  (if 8 <=? len p then [] else [msg_length])
  ++ (if any (islower ucd) p then [] else [msg_lower])
  ++ (if any (isupper ucd) p then [] else [msg_upper])
  ++ (if any (isdigit ucd) p then [] else [msg_digits])
  ++ (if any (contains syms) p then [] else [msg_symbols]).

End ClosedForm.

(** The specification's InvalidConfiguration condition is the failure
    the command loop recovers from, which in [main] is [except ValueError]. *)
Definition InvalidConfiguration : exn := ValueError.

(** An instance whose [lowercase] attribute was reassigned to ["l"] and
    whose other classes are empty, and a world holding it. *)
Definition only_l : PasswordGenerator :=
  {| lowercase := lit "l"; uppercase := []; digits := []; symbols := [] |}.

Definition world_only_l : World :=
  {| self := only_l; entropy := fun _ => 0%N; drawn := 0 |}.

(** An entropy source whose every raw draw is 42. *)
Definition always_42 : nat -> N := fun _ => 42%N.

(** No character occurs twice in [s]. *)
Fixpoint distinct (s : str) : bool :=
  match s with
  | [] => true
  | c :: rest => negb (contains rest c) && distinct rest
  end.

(** The size of the pool of an instance as [__init__] leaves it: 26
    letters and what each enabled class adds, less the ambiguous
    characters among them (l always, O with uppercase, 0 and 1 with
    digits) when they are excluded. *)
Definition pool_size (use_uppercase use_digits use_symbols exclude_ambiguous : bool) : Z :=
  26 + (if use_uppercase then 26 else 0) + (if use_digits then 10 else 0)
  + (if use_symbols then 26 else 0)
  - (if exclude_ambiguous
     then 1 + (if use_uppercase then 1 else 0) + (if use_digits then 2 else 0)
     else 0).

(** What a round of [main] writes before it reads the choice, and the
    separator it writes after a branch that does not leave the loop. *)
Definition menu_text : str :=
  lit "1. Сгенерировать обычный пароль" ++ nl
  ++ lit "2. Сгенерировать запоминающийся пароль" ++ nl
  ++ lit "3. Проверить силу пароля" ++ nl
  ++ lit "4. Выход" ++ nl
  ++ nl ++ lit "Выберите опцию (1-4): ".

Definition separator_text : str := nl ++ str_mul (lit "=") 50 ++ nl ++ nl.

(** A computation of [main] started with a fresh instance: it keeps the
    instance as it is, reads the lines [used] off the front of standard
    input, and ends with a value that satisfies [post], or with
    [EOFError] once standard input is exhausted, or with an exception
    among [caught]. *)
Definition safe {A} (caught : exn -> Prop) (m : IO A) (post : A -> list str -> Prop) : Prop :=
  forall c w, self w = init ->
    match m (c, w) with
    | (o, (c', w')) =>
        self w' = init /\
        exists used, stdin c = used ++ stdin c' /\
          match o with
          | Done a => post a used
          | Failed EOFError => stdin c' = []
          | Failed (Uncaught e) => caught e
          end
    end.

(** A runtime for the examples: nothing but the cases written out. *)
Definition plain_runtime : Runtime :=
  {| rt_ucd := {| ucd_lowercase := fun _ => false;
                  ucd_uppercase := fun _ => false;
                  ucd_digit := fun _ => false |};
     rt_int := fun _ => None;
     rt_lower := fun s => s |}.

(** ** Sanity checks of the runtime model *)

Example lit_ascii : lit "Ab1!" = [65; 98; 49; 33]%N.
Proof. reflexivity. Qed.

Example lit_cyrillic : lit "Добавьте цифры" =
  [1044; 1086; 1073; 1072; 1074; 1100; 1090; 1077; 32; 1094; 1080; 1092; 1088; 1099]%N.
Proof. reflexivity. Qed.

Example symbols_count : len (symbols init) = 26.
Proof. reflexivity. Qed.

Example words_count : len words = 24.
Proof. reflexivity. Qed.

Example capitalize_apple : capitalize (lit "apple") = lit "Apple".
Proof. reflexivity. Qed.

Example str_of_int_7 : str_of_int 7 = lit "7".
Proof. reflexivity. Qed.

(** ** The monad *)

Lemma bind_ok {A B} (m : M A) (k : A -> M B) (w w' : World) (a : A) :
  m w = (Ok a, w') -> (x <- m ;; k x) w = k a w'.
Proof.
  intros H. unfold bind. rewrite H. reflexivity.
Qed.

Lemma jump_entropy n : forall w, entropy (jump n w) = entropy w.
Proof.
  induction n as [| n IH]; intros w; simpl; [reflexivity | now rewrite IH].
Qed.

Lemma jump_drawn n : forall w, drawn (jump n w) = (drawn w + n)%nat.
Proof.
  induction n as [| n IH]; intros w; simpl; [lia | rewrite IH; simpl; lia].
Qed.

Lemma jump_succ n : forall w, jump (S n) w = advance (jump n w).
Proof.
  induction n as [| n IH]; intros w; [reflexivity |].
  change (jump (S (S n)) w) with (jump (S n) (advance w)).
  rewrite IH. reflexivity.
Qed.

(** ** Lengths and ranges *)

Lemma len_nonneg {A} (s : list A) : 0 <= len s.
Proof. unfold len. lia. Qed.

Lemma len_app {A} (s t : list A) : len (s ++ t) = len s + len t.
Proof. unfold len. rewrite length_app. lia. Qed.

Lemma length_range n : List.length (range n) = Z.to_nat n.
Proof. unfold range. now rewrite length_map, length_seq. Qed.

Lemma range_nonpositive n : n <= 0 -> range n = [].
Proof.
  intros H. unfold range. replace (Z.to_nat n) with 0%nat by lia. reflexivity.
Qed.

Lemma range_positive n : 1 <= n -> exists x rest, range n = x :: rest.
Proof.
  intros H. unfold range. destruct (Z.to_nat n) as [| m] eqn:E; [lia |].
  simpl. eauto.
Qed.

(** ** [secrets.choice] *)

Lemma pick_in {A} (xs : list A) (d : A) (raw : N) : xs <> [] -> In (pick xs d raw) xs.
Proof.
  intros Hne. unfold pick. apply nth_In.
  assert (0 < len xs) by (unfold len; destruct xs; [congruence | simpl; lia]).
  pose proof (Z.mod_pos_bound (Z.of_N raw) (len xs) H). unfold len in *. lia.
Qed.

Lemma choice_nonempty {A} (xs : list A) (d : A) (w : World) :
  xs <> [] -> choice xs w = (Ok (pick xs d (entropy w (drawn w))), advance w).
Proof.
  intros Hne. unfold choice.
  assert (Hpos : 0 < len xs) by (unfold len; destruct xs; [congruence | simpl; lia]).
  destruct (Z.eqb_spec (len xs) 0) as [E | _]; [lia |].
  unfold bind, randbelow. destruct (Z.leb_spec (len xs) 0) as [E | _]; [lia |].
  unfold getitem, pick.
  pose proof (Z.mod_pos_bound (Z.of_N (entropy w (drawn w))) (len xs) Hpos) as Hb.
  rewrite (nth_error_nth' xs d) by (unfold len in *; lia).
  reflexivity.
Qed.

Lemma choice_empty {A} (w : World) : choice (@nil A) w = (Raise IndexError, w).
Proof. reflexivity. Qed.

(** A comprehension of choices from a non-empty sequence returns the
    picks of the successive raw draws, in draw order. *)
Lemma comprehension_choice {A B} (xs : list A) (d : A) (l : list B) :
  xs <> [] ->
  forall w,
    comprehension (fun _ => choice xs) l w
    = (Ok (map (fun i => pick xs d (entropy w i)) (seq (drawn w) (List.length l))),
       jump (List.length l) w).
Proof.
  intros Hne. induction l as [| x rest IH]; intros w; [reflexivity |].
  cbn [comprehension List.length seq map jump].
  rewrite (bind_ok _ _ _ _ _ (choice_nonempty xs d w Hne)).
  rewrite (bind_ok _ _ _ _ _ (IH (advance w))).
  reflexivity.
Qed.

Lemma comprehension_choice_empty {A B} (x : B) (rest : list B) (w : World) :
  comprehension (fun _ => choice (@nil A)) (x :: rest) w = (Raise IndexError, w).
Proof. reflexivity. Qed.

(** ** [check_password_strength] *)

Section ScorerFacts.

Variable ucd : UnicodeData.

(** The symbol test reads [self.symbols] at every character and leaves
    the world as it found it. *)
Lemma any_gen_contains (p : str) (w : World) :
  any_gen (fun c => s <- getattr symbols ;; ret (contains s c)) p w
  = (Ok (any (contains (symbols (self w))) p), w).
Proof.
  induction p as [| c rest IH]; [reflexivity |].
  cbn [any_gen any existsb]. unfold bind at 1. unfold bind at 1.
  unfold getattr at 1. unfold ret at 1.
  destruct (contains (symbols (self w)) c); [reflexivity |].
  rewrite IH. reflexivity.
Qed.

(** Every call returns: the result is the closed form, the label is the
    table entry of the score, and the world is unchanged. *)
Lemma check_password_strength_run (p : str) (w : World) :
  exists label,
    dict_get strength_levels (points ucd (symbols (self w)) p) = Some label /\
    check_password_strength ucd p w
    = (Ok {| score := points ucd (symbols (self w)) p;
             strength := label;
             feedback := advice ucd (symbols (self w)) p |}, w).
Proof.
  unfold check_password_strength.
  rewrite (bind_ok _ _ _ _ _ (any_gen_contains p w)).
  unfold points, advice, check.
  destruct (8 <=? len p), (any (islower ucd) p), (any (isupper ucd) p),
    (any (isdigit ucd) p), (any (contains (symbols (self w))) p), (12 <=? len p);
    eexists; split; reflexivity.
Qed.

Lemma points_range (syms p : str) : 0 <= points ucd syms p <= 6.
Proof.
  unfold points.
  destruct (8 <=? len p), (any (islower ucd) p), (any (isupper ucd) p),
    (any (isdigit ucd) p), (any (contains syms) p), (12 <=? len p); simpl; lia.
Qed.

Lemma points_advice (syms p : str) :
  points ucd syms p + len (advice ucd syms p) = 5 + Z.b2z (12 <=? len p).
Proof.
  unfold points, advice.
  destruct (8 <=? len p), (any (islower ucd) p), (any (isupper ucd) p),
    (any (isdigit ucd) p), (any (contains syms) p), (12 <=? len p); reflexivity.
Qed.

Lemma b2z_le (a b : bool) : (a = true -> b = true) -> Z.b2z a <= Z.b2z b.
Proof.
  destruct a, b; simpl; intros H; try lia.
  all: discriminate (H eq_refl).
Qed.

Lemma any_app_mono {A} (f : A -> bool) (p s : list A) :
  any f p = true -> any f (p ++ s) = true.
Proof.
  unfold any. rewrite existsb_app. intros ->. reflexivity.
Qed.

Lemma leb_len_app_mono (n : Z) (p s : str) :
  (n <=? len p) = true -> (n <=? len (p ++ s)) = true.
Proof.
  rewrite len_app. pose proof (len_nonneg s) as Hs.
  intros Hp%Z.leb_le. apply Z.leb_le. lia.
Qed.

Lemma points_app_le (syms p s : str) : points ucd syms p <= points ucd syms (p ++ s).
Proof.
  unfold points.
  pose proof (b2z_le _ _ (leb_len_app_mono 8 p s)).
  pose proof (b2z_le _ _ (any_app_mono (islower ucd) p s)).
  pose proof (b2z_le _ _ (any_app_mono (isupper ucd) p s)).
  pose proof (b2z_le _ _ (any_app_mono (isdigit ucd) p s)).
  pose proof (b2z_le _ _ (any_app_mono (contains syms) p s)).
  pose proof (b2z_le _ _ (leb_len_app_mono 12 p s)).
  lia.
Qed.

(** When a check that failed on [p] passes once [s] is appended, the
    score grows. *)
Lemma points_app_lt (syms p s : str) :
  ((8 <=? len p) = false /\ (8 <=? len (p ++ s)) = true)
  \/ (any (islower ucd) p = false /\ any (islower ucd) (p ++ s) = true)
  \/ (any (isupper ucd) p = false /\ any (isupper ucd) (p ++ s) = true)
  \/ (any (isdigit ucd) p = false /\ any (isdigit ucd) (p ++ s) = true)
  \/ (any (contains syms) p = false /\ any (contains syms) (p ++ s) = true)
  \/ ((12 <=? len p) = false /\ (12 <=? len (p ++ s)) = true) ->
  points ucd syms p < points ucd syms (p ++ s).
Proof.
  unfold points.
  pose proof (b2z_le _ _ (leb_len_app_mono 8 p s)).
  pose proof (b2z_le _ _ (any_app_mono (islower ucd) p s)).
  pose proof (b2z_le _ _ (any_app_mono (isupper ucd) p s)).
  pose proof (b2z_le _ _ (any_app_mono (isdigit ucd) p s)).
  pose proof (b2z_le _ _ (any_app_mono (contains syms) p s)).
  pose proof (b2z_le _ _ (leb_len_app_mono 12 p s)).
  intros [[E1 E2] | [[E1 E2] | [[E1 E2] | [[E1 E2] | [[E1 E2] | [E1 E2]]]]]];
    rewrite E1, E2 in *; cbn [Z.b2z] in *; lia.
Qed.

Lemma run_Abcdefgh1 (ent : nat -> N) (k : nat) :
  check_password_strength ucd (lit "Abcdefgh1!") (boot ent k)
  = (Ok {| score := 5; strength := lit "Очень сильный"; feedback := [] |}, boot ent k).
Proof. reflexivity. Qed.

Lemma run_abcdefghijkl (ent : nat -> N) (k : nat) :
  check_password_strength ucd (lit "abcdefghijkl") (boot ent k)
  = (Ok {| score := 3; strength := lit "Хороший";
           feedback := [msg_upper; msg_digits; msg_symbols] |}, boot ent k).
Proof. reflexivity. Qed.

End ScorerFacts.

(** C2, as the code has it: [check_password_strength("Abcdefgh1!")]
    returns score 5 with an empty feedback list, and
    [check_password_strength("abcdefghijkl")] returns score 3 (the checks
    1, 2 and 6 pass) with the feedback messages for missing uppercase
    letters, digits and symbols, in that order. *)
Theorem check_password_strength_examples (ucd : UnicodeData) (ent : nat -> N) (k : nat) :
  check_password_strength ucd (lit "Abcdefgh1!") (boot ent k)
  = (Ok {| score := 5; strength := lit "Очень сильный"; feedback := [] |}, boot ent k)
  /\
  check_password_strength ucd (lit "abcdefghijkl") (boot ent k)
  = (Ok {| score := 3; strength := lit "Хороший";
           feedback := [msg_upper; msg_digits; msg_symbols] |}, boot ent k).
Proof.
  split; [apply run_Abcdefgh1 | apply run_abcdefghijkl].
Qed.

(** C2, as stated, fails: whatever the Unicode database and the entropy
    source, the score of ["abcdefghijkl"] is not 2. *)
Lemma abcdefghijkl_score_not_2 :
  ~ (exists ucd ent k r w',
       check_password_strength ucd (lit "abcdefghijkl") (boot ent k) = (Ok r, w')
       /\ score r = 2).
Proof.
  intros (ucd & ent & k & r & w' & Hrun & Hscore).
  rewrite run_abcdefghijkl in Hrun.
  injection Hrun as Hr _. subst r. discriminate Hscore.
Qed.

(** C3: [check_password_strength("")] raises nothing and returns score 0
    with exactly the five feedback messages of the checks 1 to 5, in
    order, and nothing for check 6; every string, the empty one included,
    is scored. *)
Theorem check_password_strength_empty (ucd : UnicodeData) (w : World) :
  check_password_strength ucd (lit EmptyString) w
  = (Ok {| score := 0; strength := lit "Очень слабый";
           feedback := [msg_length; msg_lower; msg_upper; msg_digits; msg_symbols] |}, w)
  /\
  forall p : str, exists r, check_password_strength ucd p w = (Ok r, w).
Proof.
  split; [reflexivity |].
  intros p. destruct (check_password_strength_run ucd p w) as (label & _ & Hrun).
  eexists. exact Hrun.
Qed.

(** C6: appending characters never lowers the score: for every password
    [p] and every appended string [s], the score of [p ++ s] is at least
    the score of [p]. *)
Theorem check_password_strength_monotone (ucd : UnicodeData) (p s : str) (w : World) :
  exists r1 r2,
    check_password_strength ucd p w = (Ok r1, w) /\
    check_password_strength ucd (p ++ s) w = (Ok r2, w) /\
    score r1 <= score r2.
Proof.
  destruct (check_password_strength_run ucd p w) as (l1 & _ & H1).
  destruct (check_password_strength_run ucd (p ++ s) w) as (l2 & _ & H2).
  do 2 eexists. split; [exact H1 |]. split; [exact H2 |].
  apply points_app_le.
Qed.

(** C8: [check_password_strength] is pure: a call returns a result and
    leaves the world (the instance's attributes, the entropy consumed) as
    it found it, and a second call on the same string, made in the world
    the first one left, returns the same score, label and feedback. *)
Theorem check_password_strength_pure (ucd : UnicodeData) (p : str) (w : World) :
  exists r,
    check_password_strength ucd p w = (Ok r, w) /\
    check_password_strength ucd p (snd (check_password_strength ucd p w)) = (Ok r, w).
Proof.
  destruct (check_password_strength_run ucd p w) as (label & _ & Hrun).
  eexists. split; [exact Hrun |].
  rewrite Hrun. exact Hrun.
Qed.

(** C9: for every string the returned score lies between 0 and 6, the
    lookup in the 7-entry table of levels succeeds, and the returned label
    is the table entry of the returned score. *)
Theorem check_password_strength_label (ucd : UnicodeData) (p : str) (w : World) :
  exists r,
    check_password_strength ucd p w = (Ok r, w) /\
    0 <= score r <= 6 /\
    len strength_levels = 7 /\
    dict_get strength_levels (score r) = Some (strength r).
Proof.
  destruct (check_password_strength_run ucd p w) as (label & Hlabel & Hrun).
  eexists. split; [exact Hrun |]. cbn [score strength].
  split; [apply points_range |]. split; [reflexivity | exact Hlabel].
Qed.

(** C10: for every string [p], the score plus the number of feedback
    messages is 5, plus 1 when [p] has at least 12 characters. *)
Theorem check_password_strength_balance (ucd : UnicodeData) (p : str) (w : World) :
  exists r,
    check_password_strength ucd p w = (Ok r, w) /\
    score r + len (feedback r) = 5 + (if 12 <=? len p then 1 else 0).
Proof.
  destruct (check_password_strength_run ucd p w) as (label & _ & Hrun).
  eexists. split; [exact Hrun |]. cbn [score feedback].
  rewrite points_advice. destruct (12 <=? len p); reflexivity.
Qed.

(** ** [generate_password] *)

Lemma contains_In (s : str) (c : char) : contains s c = true <-> In c s.
Proof.
  unfold contains. rewrite existsb_exists. split.
  - intros (x & Hin & Heq). apply N.eqb_eq in Heq. now subst.
  - intros Hin. exists c. split; [assumption | apply N.eqb_refl].
Qed.

(** The pool assembled by the code is the pool of the specification, and
    the password is a comprehension of choices from it. *)
Lemma generate_password_run (length : Z) (uu ud us ea : bool) (w : World) :
  generate_password length uu ud us ea w
  = comprehension (fun _ => choice (pool (self w) uu ud us ea)) (range length) w.
Proof.
  unfold generate_password, pool, ambiguous.
  destruct uu, ud, us, ea; unfold bind, getattr, ret; cbv beta iota zeta;
    rewrite ?app_nil_r;
    match goal with
    | |- context [comprehension ?f ?l ?w0] =>
        destruct (comprehension f l w0) as [[a | e] w']; reflexivity
    end.
Qed.

Lemma pool_without_ambiguous (g : PasswordGenerator) (uu ud us : bool) (c : char) :
  In c (pool g uu ud us true) -> ~ In c ambiguous.
Proof.
  unfold pool. intros Hin Hamb.
  apply filter_In in Hin as [_ Hneg].
  apply contains_In in Hamb. rewrite Hamb in Hneg. discriminate Hneg.
Qed.

Lemma pool_lowercase_only (g : PasswordGenerator) (ea : bool) (c : char) :
  In c (pool g false false false ea) -> In c (lowercase g).
Proof.
  unfold pool. rewrite !app_nil_r.
  destruct ea; [| trivial]. intros Hin. now apply filter_In in Hin.
Qed.

Lemma lowercase_init : lowercase init = ascii_lowercase.
Proof. reflexivity. Qed.

Lemma init_pool_keeps_plain_lowercase (uu ud us ea : bool) :
  forallb (contains (pool init uu ud us ea)) plain_lowercase = true.
Proof. destruct uu, ud, us, ea; reflexivity. Qed.

Lemma init_pool_size (uu ud us ea : bool) : 25 <= len (pool init uu ud us ea).
Proof. destruct uu, ud, us, ea; vm_compute; discriminate. Qed.

Lemma init_pool_nonempty (uu ud us ea : bool) : pool init uu ud us ea <> [].
Proof.
  intros E. pose proof (init_pool_size uu ud us ea) as H.
  rewrite E in H. vm_compute in H. apply H. reflexivity.
Qed.

Lemma picks_in {A} (xs : list A) (d : A) (ent : nat -> N) (l : list nat) :
  xs <> [] -> Forall (fun x => In x xs) (map (fun i => pick xs d (ent i)) l).
Proof.
  intros Hne. apply Forall_forall. intros x Hin.
  apply in_map_iff in Hin as (i & <- & _). now apply pick_in.
Qed.

(** C1: for every length of at least 1 and every combination of the four
    flags, [generate_password] returns a string of exactly [length]
    characters, each one from the pool (lowercase, then the enabled
    classes among uppercase, digits, symbols, without 0, O, l, 1 when the
    ambiguous characters are excluded); with [exclude_ambiguous] the
    output has none of 0, O, l, 1, and with the three class toggles off it
    has lowercase letters only. *)
Theorem generate_password_spec (ent : nat -> N) (k : nat) (length : Z)
    (use_uppercase use_digits use_symbols exclude_ambiguous : bool) :
  1 <= length ->
  exists password,
    generate_password length use_uppercase use_digits use_symbols exclude_ambiguous
      (boot ent k)
    = (Ok password, jump (Z.to_nat length) (boot ent k)) /\
    len password = length /\
    Forall (fun c => In c (pool init use_uppercase use_digits use_symbols exclude_ambiguous))
      password /\
    (exclude_ambiguous = true -> Forall (fun c => ~ In c ambiguous) password) /\
    (use_uppercase = false -> use_digits = false -> use_symbols = false ->
     Forall (fun c => In c ascii_lowercase) password).
Proof.
  intros Hlen.
  pose proof (init_pool_nonempty use_uppercase use_digits use_symbols exclude_ambiguous) as Hne.
  rewrite generate_password_run.
  rewrite (comprehension_choice _ 0%N _ Hne), length_range.
  eexists. split; [reflexivity |].
  pose proof (picks_in _ 0%N ent (seq k (Z.to_nat length)) Hne) as Hpool.
  cbn [self entropy drawn boot] in *.
  split; [unfold len; rewrite length_map, length_seq; lia |].
  split; [exact Hpool |]. split.
  - intros ->. eapply Forall_impl; [| exact Hpool].
    intros c. apply pool_without_ambiguous.
  - intros -> -> ->. eapply Forall_impl; [| exact Hpool].
    intros c Hc. cbv beta in *. rewrite <- lowercase_init.
    exact (pool_lowercase_only init exclude_ambiguous c Hc).
Qed.

Lemma generate_password_spec_witness :
  exists password,
    generate_password 12 true true true true (boot always_42 0)
    = (Ok password, jump (Z.to_nat 12) (boot always_42 0)) /\
    len password = 12 /\
    Forall (fun c => In c (pool init true true true true)) password /\
    (true = true -> Forall (fun c => ~ In c ambiguous) password) /\
    (true = false -> true = false -> true = false ->
     Forall (fun c => In c ascii_lowercase) password).
Proof.
  apply (generate_password_spec always_42 0 12 true true true true). lia.
Defined.

(** C7, as the code has it.  No guard of the class checks the pool: when
    it is empty, which takes an instance whose attributes were reassigned,
    a [length] of at least 1 makes [secrets.choice] raise [IndexError]
    before anything is drawn, and a [length] of 0 or less returns the
    empty string.  For the instance as [__init__] leaves it, and every
    combination of the four flags, the pool keeps the 25 lowercase letters
    other than l, so it is never empty and the call returns a string. *)
Theorem generate_password_empty_pool (w : World) (length : Z) (uu ud us ea : bool) :
  (pool (self w) uu ud us ea = [] -> 1 <= length ->
   generate_password length uu ud us ea w = (Raise IndexError, w)) /\
  (pool (self w) uu ud us ea = [] -> length <= 0 ->
   generate_password length uu ud us ea w = (Ok [], w)) /\
  (self w = init ->
   incl plain_lowercase (pool (self w) uu ud us ea) /\
   25 <= len (pool (self w) uu ud us ea) /\
   exists password, fst (generate_password length uu ud us ea w) = Ok password).
Proof.
  rewrite generate_password_run. split; [| split].
  - intros -> Hlen. destruct (range_positive length Hlen) as (x & rest & ->).
    apply comprehension_choice_empty.
  - intros _ Hlen. rewrite (range_nonpositive length Hlen). reflexivity.
  - intros ->. split; [| split].
    + intros c Hc. apply contains_In.
      pose proof (init_pool_keeps_plain_lowercase uu ud us ea) as Hall.
      rewrite forallb_forall in Hall. now apply Hall.
    + apply init_pool_size.
    + rewrite (comprehension_choice _ 0%N _ (init_pool_nonempty uu ud us ea)).
      eexists. reflexivity.
Qed.

Lemma generate_password_empty_pool_witness :
  generate_password 3 false false false true world_only_l = (Raise IndexError, world_only_l)
  /\ generate_password 0 false false false true world_only_l = (Ok [], world_only_l)
  /\ (incl plain_lowercase (pool init false true false true)
      /\ 25 <= len (pool init false true false true)
      /\ exists password,
           fst (generate_password 8 false true false true (boot always_42 0)) = Ok password).
Proof.
  split; [| split].
  - apply (proj1 (generate_password_empty_pool world_only_l 3 false false false true));
      [reflexivity | lia].
  - apply (proj1 (proj2 (generate_password_empty_pool world_only_l 0 false false false true)));
      [reflexivity | lia].
  - apply (proj2 (proj2 (generate_password_empty_pool (boot always_42 0) 8 false true false true))).
    reflexivity.
Defined.

(** C7, as stated, fails: on an instance whose [lowercase] is ["l"] and
    whose other classes are empty, excluding the ambiguous characters
    empties the pool; with [length] 0 the call returns the empty string
    and raises nothing, and with [length] 3 what it raises is the
    [IndexError] of [secrets.choice], not a configuration error. *)
Lemma empty_pool_is_not_guarded :
  pool only_l false false false true = []
  /\ fst (generate_password 0 false false false true world_only_l) = Ok []
  /\ fst (generate_password 3 false false false true world_only_l) = Raise IndexError
  /\ IndexError <> InvalidConfiguration.
Proof.
  split; [reflexivity |]. split; [reflexivity |]. split; [reflexivity | discriminate].
Qed.

(** ** [generate_memorable_password] *)

Lemma words_nonempty : words <> [].
Proof. discriminate. Qed.

(** The words are lower-case ASCII, so [capitalize] changes the case of
    their first letter and nothing else. *)
Lemma capitalize_words :
  Forall (fun word => first_upper_rest_lower word (capitalize word)) words.
Proof.
  repeat constructor; do 2 eexists; repeat split; reflexivity.
Qed.

Lemma renders_upto_99 :
  forallb (fun j => renders (Z.of_nat j) (str_of_int (Z.of_nat j))) (seq 0 100) = true.
Proof. vm_compute. reflexivity. Qed.

Lemma str_of_int_renders (n : Z) : 0 <= n <= 99 -> renders n (str_of_int n) = true.
Proof.
  intros Hn. pose proof renders_upto_99 as Hall. rewrite forallb_forall in Hall.
  specialize (Hall (Z.to_nat n)). rewrite Z2Nat.id in Hall by lia.
  apply Hall, in_seq. lia.
Qed.

(** Every call returns: it draws [num_words] words, none when the count
    is not positive, then the suffix. *)
Lemma generate_memorable_password_run (num_words : Z) (w : World) :
  generate_memorable_password num_words w
  = (Ok (join (map capitalize
                 (map (fun i => pick words [] (entropy w i))
                    (seq (drawn w) (Z.to_nat num_words))))
         ++ str_of_int (Z.of_N (entropy w (drawn w + Z.to_nat num_words)%nat) mod 100)),
     jump (S (Z.to_nat num_words)) w).
Proof.
  unfold generate_memorable_password.
  rewrite (bind_ok _ _ _ _ _
             (comprehension_choice words [] (range num_words) words_nonempty w)).
  rewrite length_range.
  unfold bind, randbelow, ret. change (100 <=? 0) with false. cbv beta iota.
  rewrite jump_entropy, jump_drawn, <- jump_succ. reflexivity.
Qed.

(** C4: for every [num_words] of at least 1 and every sequence of raw
    draws, [generate_memorable_password] returns the concatenation, in
    draw order and with no separator, of [num_words] words of the 24-word
    list, each with its first letter in upper case and the rest in lower
    case, followed by the unpadded decimal rendering (one or two digits)
    of an integer between 0 and 99. *)
Theorem generate_memorable_password_spec (w : World) (num_words : Z) :
  1 <= num_words ->
  let n := Z.to_nat num_words in
  let selected := map (fun i => pick words [] (entropy w i)) (seq (drawn w) n) in
  let suffix := Z.of_N (entropy w (drawn w + n)%nat) mod 100 in
  generate_memorable_password num_words w
  = (Ok (join (map capitalize selected) ++ str_of_int suffix), jump (S n) w) /\
  len words = 24 /\
  len selected = num_words /\
  Forall (fun word => In word words /\ first_upper_rest_lower word (capitalize word))
    selected /\
  0 <= suffix <= 99 /\
  renders suffix (str_of_int suffix) = true.
Proof.
  intros Hnum n selected suffix.
  assert (Hsuffix : 0 <= suffix <= 99).
  { subst suffix. pose proof (Z.mod_pos_bound (Z.of_N (entropy w (drawn w + n)%nat)) 100).
    lia. }
  split; [apply generate_memorable_password_run |].
  split; [reflexivity |].
  split; [subst selected n; unfold len; rewrite length_map, length_seq; lia |].
  split; [| split; [exact Hsuffix | now apply str_of_int_renders]].
  pose proof (picks_in words [] (entropy w) (seq (drawn w) n) words_nonempty) as Hin.
  eapply Forall_impl; [| exact Hin]. intros word Hword. split; [exact Hword |].
  pose proof capitalize_words as Hcap. rewrite Forall_forall in Hcap. now apply Hcap.
Qed.

Lemma generate_memorable_password_spec_witness :
  generate_memorable_password 2 (boot always_42 0)
  = (Ok (lit "TigerTiger42"), boot always_42 3)
  /\ renders 42 (lit "42") = true.
Proof.
  pose proof (generate_memorable_password_spec (boot always_42 0) 2) as H.
  cbv zeta in H. destruct H as (Hrun & _ & _ & _ & _ & Hsuffix); [lia |].
  split; [exact Hrun | exact Hsuffix].
Defined.

(** C5, as the code has it: with [num_words] zero or negative,
    [generate_memorable_password] raises nothing; it draws no word and
    returns the decimal rendering of one integer between 0 and 99. *)
Theorem generate_memorable_password_no_words (w : World) (num_words : Z) :
  num_words <= 0 ->
  let suffix := Z.of_N (entropy w (drawn w)) mod 100 in
  generate_memorable_password num_words w = (Ok (str_of_int suffix), advance w) /\
  0 <= suffix <= 99.
Proof.
  intros Hnum suffix. split.
  - rewrite generate_memorable_password_run.
    replace (Z.to_nat num_words) with 0%nat by lia.
    subst suffix. cbn [seq map join concat app jump]. rewrite Nat.add_0_r. reflexivity.
  - subst suffix. pose proof (Z.mod_pos_bound (Z.of_N (entropy w (drawn w))) 100). lia.
Qed.

Lemma generate_memorable_password_no_words_witness :
  generate_memorable_password (-3) (boot always_42 0) = (Ok (lit "42"), boot always_42 1)
  /\ 0 <= 42 <= 99.
Proof.
  apply (generate_memorable_password_no_words (boot always_42 0) (-3)). lia.
Defined.

(** C5, as stated, fails: with [num_words] 0, and with [num_words] -3,
    the call returns the string ["42"] when the raw draw is 42; no
    exception, and so no configuration error, is raised. *)
Lemma zero_words_is_not_rejected :
  fst (generate_memorable_password 0 (boot always_42 0)) = Ok (lit "42")
  /\ fst (generate_memorable_password (-3) (boot always_42 0)) = Ok (lit "42")
  /\ fst (generate_memorable_password 0 (boot always_42 0)) <> Raise InvalidConfiguration.
Proof.
  split; [reflexivity |]. split; [reflexivity | discriminate].
Qed.

(** ** Further properties of [generate_password] *)

Lemma distinct_NoDup (s : str) : distinct s = true -> NoDup s.
Proof.
  induction s as [| c rest IH]; intros H; [constructor |].
  cbn [distinct] in H. apply andb_prop in H as [Hc Hrest].
  constructor; [| now apply IH].
  intros Hin. apply contains_In in Hin. rewrite Hin in Hc. discriminate Hc.
Qed.

(** X1: whatever the instance holds and whatever the flags, a [length]
    of zero or less returns the empty string, raises nothing and draws
    nothing. *)
Theorem generate_password_nonpositive_length (w : World) (length : Z)
    (uu ud us ea : bool) :
  length <= 0 -> generate_password length uu ud us ea w = (Ok [], w).
Proof.
  intros Hlen. rewrite generate_password_run, (range_nonpositive length Hlen).
  reflexivity.
Qed.

Lemma generate_password_nonpositive_length_witness :
  generate_password (-5) true true true false (boot always_42 7) = (Ok [], boot always_42 7).
Proof.
  apply (generate_password_nonpositive_length (boot always_42 7) (-5) true true true false).
  lia.
Defined.

Lemma jump_boot (ent : nat -> N) (n : nat) :
  forall k, jump n (boot ent k) = boot ent (k + n).
Proof.
  induction n as [| n IH]; intros k; cbn [jump].
  - now rewrite Nat.add_0_r.
  - change (advance (boot ent k)) with (boot ent (S k)). rewrite IH. f_equal. lia.
Qed.

Lemma generate_password_init_run (ent : nat -> N) (k : nat) (length : Z)
    (uu ud us ea : bool) :
  generate_password length uu ud us ea (boot ent k)
  = (Ok (map (fun i => pick (pool init uu ud us ea) 0%N (ent i))
           (seq k (Z.to_nat length))),
     boot ent (k + Z.to_nat length)).
Proof.
  rewrite generate_password_run.
  rewrite (comprehension_choice _ 0%N _ (init_pool_nonempty uu ud us ea)), length_range.
  now rewrite jump_boot.
Qed.

(** X2: the characters are drawn with replacement and kept in draw
    order: the password is, position by position, the pool item at the
    index given by the successive raw draws modulo the pool size, and the
    call consumes as many draws as it returns characters. *)
Theorem generate_password_draw_order (ent : nat -> N) (k : nat) (length : Z)
    (uu ud us ea : bool) :
  generate_password length uu ud us ea (boot ent k)
  = (Ok (map (fun i => nth (Z.to_nat (Z.of_N (ent i) mod len (pool init uu ud us ea)))
                         (pool init uu ud us ea) 0%N)
           (seq k (Z.to_nat length))),
     boot ent (k + Z.to_nat length)).
Proof.
  rewrite generate_password_run.
  rewrite (comprehension_choice _ 0%N _ (init_pool_nonempty uu ud us ea)), length_range.
  rewrite jump_boot. reflexivity.
Qed.

(** X3: for an instance as [__init__] leaves it, no character occurs
    twice in the pool, whatever the flags, and the pool has 26 characters
    plus 26, 10 and 26 for uppercase, digits and symbols, less the
    ambiguous characters among them when they are excluded. *)
Theorem init_pool_distinct (uu ud us ea : bool) :
  NoDup (pool init uu ud us ea) /\ len (pool init uu ud us ea) = pool_size uu ud us ea.
Proof.
  split.
  - apply distinct_NoDup. destruct uu, ud, us, ea; vm_compute; reflexivity.
  - destruct uu, ud, us, ea; vm_compute; reflexivity.
Qed.

(** ** Further properties of [check_password_strength] *)

Lemma existsb_Permutation {A} (f : A -> bool) (p q : list A) :
  Permutation p q -> existsb f p = existsb f q.
Proof.
  induction 1 as [| x p q _ IH | x y p | p q r _ IH1 _ IH2]; cbn [existsb].
  - reflexivity.
  - now rewrite IH.
  - destruct (f x), (f y); reflexivity.
  - now rewrite IH1.
Qed.

Lemma len_Permutation {A} (p q : list A) : Permutation p q -> len p = len q.
Proof. intros H. unfold len. now rewrite (Permutation_length H). Qed.

Lemma points_Permutation (ucd : UnicodeData) (syms p q : str) :
  Permutation p q -> points ucd syms p = points ucd syms q.
Proof.
  intros H. unfold points, any.
  now rewrite (len_Permutation p q H), !(existsb_Permutation _ p q H).
Qed.

Lemma advice_Permutation (ucd : UnicodeData) (syms p q : str) :
  Permutation p q -> advice ucd syms p = advice ucd syms q.
Proof.
  intros H. unfold advice, any.
  now rewrite (len_Permutation p q H), !(existsb_Permutation _ p q H).
Qed.

(** X4: the result depends on which characters a password has and how
    many, not on their order: two passwords that are rearrangements of
    one another get the same score, label and feedback. *)
Theorem check_password_strength_permutation (ucd : UnicodeData) (p q : str) (w : World) :
  Permutation p q ->
  check_password_strength ucd p w = check_password_strength ucd q w.
Proof.
  intros H.
  destruct (check_password_strength_run ucd p w) as (lp & Hlp & ->).
  destruct (check_password_strength_run ucd q w) as (lq & Hlq & ->).
  rewrite (points_Permutation ucd _ p q H) in Hlp |- *.
  rewrite (advice_Permutation ucd _ p q H).
  rewrite Hlp in Hlq. injection Hlq as ->. reflexivity.
Qed.

Lemma check_password_strength_permutation_witness :
  check_password_strength {| ucd_lowercase := fun _ => false;
                             ucd_uppercase := fun _ => false;
                             ucd_digit := fun _ => false |}
    (lit "ab1") (boot always_42 0)
  = check_password_strength {| ucd_lowercase := fun _ => false;
                               ucd_uppercase := fun _ => false;
                               ucd_digit := fun _ => false |}
      (lit "1ba") (boot always_42 0).
Proof.
  apply check_password_strength_permutation.
  change (Permutation [97; 98; 49]%N [49; 98; 97]%N).
  apply perm_trans with (l' := [97; 49; 98]%N).
  - apply perm_skip, perm_swap.
  - apply perm_trans with (l' := [49; 97; 98]%N).
    + apply perm_swap.
    + apply perm_skip, perm_swap.
Defined.

(** X5: one more character of a class the password lacks raises the
    score: if no character of [p] is a lowercase letter (an uppercase
    letter, a digit, a symbol of the instance) and [c] is one, the score
    of [p] followed by [c] is greater than the score of [p]. *)
Theorem check_password_strength_new_class (ucd : UnicodeData) (p : str) (c : char)
    (w : World) :
  (any (islower ucd) p = false /\ islower ucd c = true)
  \/ (any (isupper ucd) p = false /\ isupper ucd c = true)
  \/ (any (isdigit ucd) p = false /\ isdigit ucd c = true)
  \/ (any (contains (symbols (self w))) p = false /\ contains (symbols (self w)) c = true) ->
  exists r1 r2,
    check_password_strength ucd p w = (Ok r1, w) /\
    check_password_strength ucd (p ++ [c]) w = (Ok r2, w) /\
    score r1 < score r2.
Proof.
  intros H.
  destruct (check_password_strength_run ucd p w) as (l1 & _ & H1).
  destruct (check_password_strength_run ucd (p ++ [c]) w) as (l2 & _ & H2).
  do 2 eexists. split; [exact H1 |]. split; [exact H2 |]. cbn [score].
  apply points_app_lt.
  assert (Hlast : forall f : char -> bool, f c = true -> any f (p ++ [c]) = true).
  { intros f Hf. unfold any. rewrite existsb_app. cbn [existsb]. rewrite Hf.
    now rewrite orb_true_r. }
  destruct H as [[E1 E2] | [[E1 E2] | [[E1 E2] | [E1 E2]]]]; auto 10.
Qed.

Lemma check_password_strength_new_class_witness :
  exists r1 r2,
    check_password_strength {| ucd_lowercase := fun _ => false;
                               ucd_uppercase := fun _ => false;
                               ucd_digit := fun _ => false |}
      (lit "abc") (boot always_42 0) = (Ok r1, boot always_42 0) /\
    check_password_strength {| ucd_lowercase := fun _ => false;
                               ucd_uppercase := fun _ => false;
                               ucd_digit := fun _ => false |}
      (lit "abc" ++ [55%N]) (boot always_42 0) = (Ok r2, boot always_42 0) /\
    score r1 < score r2.
Proof.
  apply (check_password_strength_new_class _ (lit "abc") 55%N (boot always_42 0)).
  right. right. left. split; reflexivity.
Defined.

Lemma messages_distinct :
  NoDup [msg_length; msg_lower; msg_upper; msg_digits; msg_symbols].
Proof.
  assert (Hlen : NoDup (map (@List.length char)
                          [msg_length; msg_lower; msg_upper; msg_digits; msg_symbols])).
  { vm_compute. repeat constructor; cbn [In]; intros H;
      repeat (destruct H as [H | H]; [discriminate H |]); exact H. }
  exact (NoDup_map_inv _ _ Hlen).
Qed.

(** Which of five distinct messages are in a feedback list built as the
    code builds it. *)
Lemma feedback_membership {A} (m1 m2 m3 m4 m5 : A) (b1 b2 b3 b4 b5 : bool) :
  NoDup [m1; m2; m3; m4; m5] ->
  let fb := (if b1 then [] else [m1]) ++ (if b2 then [] else [m2])
            ++ (if b3 then [] else [m3]) ++ (if b4 then [] else [m4])
            ++ (if b5 then [] else [m5]) in
  (In m1 fb <-> b1 = false) /\ (In m2 fb <-> b2 = false) /\ (In m3 fb <-> b3 = false)
  /\ (In m4 fb <-> b4 = false) /\ (In m5 fb <-> b5 = false).
Proof.
  intros Hd fb. subst fb.
  assert (Hneq : m1 <> m2 /\ m1 <> m3 /\ m1 <> m4 /\ m1 <> m5 /\ m2 <> m3
                 /\ m2 <> m4 /\ m2 <> m5 /\ m3 <> m4 /\ m3 <> m5 /\ m4 <> m5).
  { repeat match goal with
           | H : NoDup (_ :: _) |- _ => apply NoDup_cons_iff in H as [? ?]
           end.
    cbn [In] in *. repeat split; intros E; subst; tauto. }
  destruct Hneq as (? & ? & ? & ? & ? & ? & ? & ? & ? & ?).
  destruct b1, b2, b3, b4, b5; cbn [app In];
    repeat split; intros; try discriminate; try tauto;
    repeat match goal with
           | H : _ \/ _ |- _ => destruct H
           end; try contradiction; try congruence; exfalso; auto.
Qed.

(** X6: each feedback message is given exactly when its check fails: the
    length message when the password has fewer than 8 characters, and the
    messages for lowercase letters, uppercase letters, digits and symbols
    when the password has no character of that kind. *)
Theorem check_password_strength_feedback (ucd : UnicodeData) (p : str) (w : World) :
  exists r,
    check_password_strength ucd p w = (Ok r, w) /\
    (In msg_length (feedback r) <-> len p < 8) /\
    (In msg_lower (feedback r) <-> any (islower ucd) p = false) /\
    (In msg_upper (feedback r) <-> any (isupper ucd) p = false) /\
    (In msg_digits (feedback r) <-> any (isdigit ucd) p = false) /\
    (In msg_symbols (feedback r) <-> any (contains (symbols (self w))) p = false).
Proof.
  destruct (check_password_strength_run ucd p w) as (label & _ & Hrun).
  eexists. split; [exact Hrun |]. cbn [feedback]. unfold advice.
  pose proof (feedback_membership _ _ _ _ _ (8 <=? len p) (any (islower ucd) p)
                (any (isupper ucd) p) (any (isdigit ucd) p)
                (any (contains (symbols (self w))) p) messages_distinct) as H.
  cbv zeta in H. destruct H as (H1 & H2 & H3 & H4 & H5).
  split; [| split; [exact H2 | split; [exact H3 | split; [exact H4 | exact H5]]]].
  split; intros Hin.
  - apply H1 in Hin. now apply Z.leb_gt.
  - apply H1. now apply Z.leb_gt.
Qed.

(** ** Scoring what the generators return *)

Lemma any_true_In {A} (f : A -> bool) (l : list A) (x : A) :
  In x l -> f x = true -> any f l = true.
Proof. intros Hin Hf. apply existsb_exists. eauto. Qed.

Lemma any_false_Forall {A} (f : A -> bool) (l : list A) :
  Forall (fun x => f x = false) l -> any f l = false.
Proof.
  induction 1 as [| x l Hx _ IH]; [reflexivity |].
  cbn [any existsb]. rewrite Hx. exact IH.
Qed.

Lemma any_app {A} (f : A -> bool) (p s : list A) : any f (p ++ s) = any f p || any f s.
Proof. apply existsb_app. Qed.

Lemma any_join (f : char -> bool) (parts : list str) :
  any f (join parts) = existsb (any f) parts.
Proof.
  unfold join. induction parts as [| s rest IH]; [reflexivity |].
  cbn [List.concat existsb]. rewrite any_app, IH. reflexivity.
Qed.

Lemma b2z_range (b : bool) : 0 <= Z.b2z b <= 1.
Proof. destruct b; simpl; lia. Qed.

Section Composition.

Variable ucd : UnicodeData.

(** The score of a call whose six tests are known. *)
Lemma check_password_strength_points (p : str) (w : World) :
  exists r,
    check_password_strength ucd p w = (Ok r, w) /\
    score r = points ucd (symbols (self w)) p /\
    feedback r = advice ucd (symbols (self w)) p /\
    dict_get strength_levels (score r) = Some (strength r).
Proof.
  destruct (check_password_strength_run ucd p w) as (label & Hlabel & Hrun).
  eexists. split; [exact Hrun |]. cbn [score feedback strength]. auto.
Qed.

(** Every character of the pool of a fresh instance counts for one of
    the four class checks. *)
Lemma init_pool_classified (uu ud us ea : bool) :
  forallb (fun c => islower ucd c || isupper ucd c || isdigit ucd c
                    || contains (symbols init) c)
    (pool init uu ud us ea) = true.
Proof. destruct uu, ud, us, ea; reflexivity. Qed.

(** A class that is switched off has no character in the pool. *)
Lemma init_pool_no_upper (ud us ea : bool) :
  forallb (fun c => negb (isupper ucd c)) (pool init false ud us ea) = true.
Proof. destruct ud, us, ea; reflexivity. Qed.

Lemma init_pool_no_digit (uu us ea : bool) :
  forallb (fun c => negb (isdigit ucd c)) (pool init uu false us ea) = true.
Proof. destruct uu, us, ea; reflexivity. Qed.

Lemma init_pool_no_symbol (uu ud ea : bool) :
  forallb (fun c => negb (contains (symbols init) c)) (pool init uu ud false ea) = true.
Proof. destruct uu, ud, ea; reflexivity. Qed.

Lemma any_false_of_pool (f : char -> bool) (xs pw : str) :
  forallb (fun c => negb (f c)) xs = true ->
  Forall (fun c => In c xs) pw ->
  any f pw = false.
Proof.
  intros Hxs Hpw. apply any_false_Forall.
  eapply Forall_impl; [| exact Hpw]. intros c Hc. cbv beta in *.
  rewrite forallb_forall in Hxs. specialize (Hxs c Hc).
  now apply negb_true_iff in Hxs.
Qed.

(** X7: what [main] reports after generating a password.  For a fresh
    instance and a [length] of at least 1, the score of the generated
    password is one point for each length threshold (8, 12) that [length]
    reaches, plus at least one point and at most one point per class in
    the pool (lowercase and each enabled class): a class that is switched
    off never scores. *)
Theorem generated_password_score (ent : nat -> N) (k : nat) (length : Z)
    (uu ud us ea : bool) :
  1 <= length ->
  exists password r,
    generate_password length uu ud us ea (boot ent k)
    = (Ok password, boot ent (k + Z.to_nat length)) /\
    check_password_strength ucd password (boot ent (k + Z.to_nat length))
    = (Ok r, boot ent (k + Z.to_nat length)) /\
    Z.b2z (8 <=? length) + Z.b2z (12 <=? length) + 1 <= score r /\
    score r <= Z.b2z (8 <=? length) + Z.b2z (12 <=? length) + 1
               + Z.b2z uu + Z.b2z ud + Z.b2z us.
Proof.
  intros Hlen.
  set (xs := pool init uu ud us ea).
  set (pw := map (fun i => pick xs 0%N (ent i)) (seq k (Z.to_nat length))).
  assert (Hin : Forall (fun c => In c xs) pw)
    by (apply picks_in, init_pool_nonempty).
  assert (Hpw : len pw = length)
    by (unfold pw, len; rewrite length_map, length_seq; lia).
  destruct (check_password_strength_points pw (boot ent (k + Z.to_nat length)))
    as (r & Hrun & Hscore & _ & _).
  exists pw, r. split; [apply generate_password_init_run |]. split; [exact Hrun |].
  rewrite Hscore. unfold points. rewrite Hpw. cbn [self boot].
  (* at least one class check passes: the first character is in a class *)
  assert (Hone : 1 <= Z.b2z (any (islower ucd) pw) + Z.b2z (any (isupper ucd) pw)
                      + Z.b2z (any (isdigit ucd) pw)
                      + Z.b2z (any (contains (symbols init)) pw)).
  { destruct pw as [| c rest] eqn:E; [unfold len in Hpw; simpl in Hpw; lia |].
    pose proof (Forall_inv Hin) as Hc. cbv beta in Hc.
    pose proof (init_pool_classified uu ud us ea) as Hall.
    rewrite forallb_forall in Hall. specialize (Hall c Hc).
    cbn [any existsb].
    destruct (islower ucd c), (isupper ucd c), (isdigit ucd c),
      (contains (symbols init) c); try discriminate Hall; cbn [orb Z.b2z];
      repeat match goal with
             | |- context [Z.b2z ?b] => pose proof (b2z_range b); generalize dependent (Z.b2z b); intros
             end; lia. }
  (* a class that is off contributes nothing *)
  assert (Hup : Z.b2z (any (isupper ucd) pw) <= Z.b2z uu).
  { destruct uu; [apply b2z_range |].
    rewrite (any_false_of_pool _ xs pw (init_pool_no_upper ud us ea) Hin). simpl. lia. }
  assert (Hdg : Z.b2z (any (isdigit ucd) pw) <= Z.b2z ud).
  { destruct ud; [apply b2z_range |].
    rewrite (any_false_of_pool _ xs pw (init_pool_no_digit uu us ea) Hin). simpl. lia. }
  assert (Hsy : Z.b2z (any (contains (symbols init)) pw) <= Z.b2z us).
  { destruct us; [apply b2z_range |].
    rewrite (any_false_of_pool _ xs pw (init_pool_no_symbol uu ud ea) Hin). simpl. lia. }
  pose proof (b2z_range (any (islower ucd) pw)).
  lia.
Qed.

End Composition.

Lemma generated_password_score_witness :
  exists password r,
    generate_password 12 false true false false (boot always_42 0)
    = (Ok password, boot always_42 (0 + Z.to_nat 12)) /\
    check_password_strength {| ucd_lowercase := fun _ => false;
                               ucd_uppercase := fun _ => false;
                               ucd_digit := fun _ => false |}
      password (boot always_42 (0 + Z.to_nat 12))
    = (Ok r, boot always_42 (0 + Z.to_nat 12)) /\
    Z.b2z (8 <=? 12) + Z.b2z (12 <=? 12) + 1 <= score r /\
    score r <= Z.b2z (8 <=? 12) + Z.b2z (12 <=? 12) + 1
               + Z.b2z false + Z.b2z true + Z.b2z false.
Proof.
  apply (generated_password_score _ always_42 0 12 false true false false). lia.
Defined.

Section MemorableScore.

Variable ucd : UnicodeData.

(** Each capitalized word has 4 to 8 characters, a lowercase and an
    uppercase letter, and no symbol of a fresh instance. *)
Lemma capitalized_word_facts :
  forallb (fun word =>
             (4 <=? len (capitalize word)) && (len (capitalize word) <=? 8)
             && any (islower ucd) (capitalize word)
             && any (isupper ucd) (capitalize word)
             && negb (any (contains (symbols init)) (capitalize word)))
    words = true.
Proof. reflexivity. Qed.

(** The suffix has one or two characters, all digits. *)
Lemma suffix_facts :
  forallb (fun j =>
             (1 <=? len (str_of_int (Z.of_nat j)))
             && (len (str_of_int (Z.of_nat j)) <=? 2)
             && any (isdigit ucd) (str_of_int (Z.of_nat j))
             && negb (any (islower ucd) (str_of_int (Z.of_nat j)))
             && negb (any (isupper ucd) (str_of_int (Z.of_nat j)))
             && negb (any (contains (symbols init)) (str_of_int (Z.of_nat j))))
    (seq 0 100) = true.
Proof. vm_compute. reflexivity. Qed.

Lemma suffix_fact (n : Z) :
  0 <= n <= 99 ->
  1 <= len (str_of_int n) <= 2
  /\ any (isdigit ucd) (str_of_int n) = true
  /\ any (islower ucd) (str_of_int n) = false
  /\ any (isupper ucd) (str_of_int n) = false
  /\ any (contains (symbols init)) (str_of_int n) = false.
Proof.
  intros Hn. pose proof suffix_facts as Hall. rewrite forallb_forall in Hall.
  specialize (Hall (Z.to_nat n)). rewrite Z2Nat.id in Hall by lia.
  assert (Hin : In (Z.to_nat n) (seq 0 100)) by (apply in_seq; lia).
  specialize (Hall Hin).
  repeat (apply andb_prop in Hall as [Hall ?]).
  repeat match goal with
         | H : negb _ = true |- _ => apply negb_true_iff in H
         | H : (_ <=? _) = true |- _ => apply Z.leb_le in H
         end.
  repeat split; assumption.
Qed.

Lemma word_fact (word : str) :
  In word words ->
  4 <= len (capitalize word) <= 8
  /\ any (islower ucd) (capitalize word) = true
  /\ any (isupper ucd) (capitalize word) = true
  /\ any (contains (symbols init)) (capitalize word) = false.
Proof.
  intros Hin. pose proof capitalized_word_facts as Hall.
  rewrite forallb_forall in Hall. specialize (Hall word Hin).
  repeat (apply andb_prop in Hall as [Hall ?]).
  repeat match goal with
         | H : negb _ = true |- _ => apply negb_true_iff in H
         | H : (_ <=? _) = true |- _ => apply Z.leb_le in H
         end.
  repeat split; assumption.
Qed.

(** The joined capitalized words: their length, and which checks they
    pass. *)
Lemma joined_words_len (ws : list str) :
  Forall (fun word => In word words) ws ->
  4 * len ws <= len (join (map capitalize ws)) <= 8 * len ws.
Proof.
  unfold join. induction 1 as [| word ws Hword _ IH].
  - unfold len. simpl. lia.
  - cbn [map List.concat]. rewrite len_app.
    destruct (word_fact word Hword) as (Hlen & _).
    unfold len in *. cbn [List.length]. lia.
Qed.

Lemma joined_words_no_symbol (ws : list str) :
  Forall (fun word => In word words) ws ->
  any (contains (symbols init)) (join (map capitalize ws)) = false.
Proof.
  unfold join. induction 1 as [| word ws Hword _ IH]; [reflexivity |].
  cbn [map List.concat]. rewrite any_app, IH.
  destruct (word_fact word Hword) as (_ & _ & _ & ->). reflexivity.
Qed.

Lemma joined_words_letters (ws : list str) :
  ws <> [] ->
  Forall (fun word => In word words) ws ->
  any (islower ucd) (join (map capitalize ws)) = true
  /\ any (isupper ucd) (join (map capitalize ws)) = true.
Proof.
  unfold join. intros Hne Hall. destruct Hall as [| word ws Hword _]; [congruence |].
  cbn [map List.concat]. rewrite !any_app.
  destruct (word_fact word Hword) as (_ & -> & -> & _). split; reflexivity.
Qed.

Lemma selected_words (ent : nat -> N) (l : list nat) :
  Forall (fun word => In word words) (map (fun i => pick words [] (ent i)) l).
Proof. apply picks_in, words_nonempty. Qed.

Lemma suffix_bound (raw : N) : 0 <= Z.of_N raw mod 100 <= 99.
Proof. pose proof (Z.mod_pos_bound (Z.of_N raw) 100). lia. Qed.

Lemma memorable_password_scored (ent : nat -> N) (k : nat) (num_words : Z) :
  1 <= num_words ->
  exists password r,
    generate_memorable_password num_words (boot ent k)
    = (Ok password, boot ent (k + S (Z.to_nat num_words))) /\
    check_password_strength ucd password (boot ent (k + S (Z.to_nat num_words)))
    = (Ok r, boot ent (k + S (Z.to_nat num_words))) /\
    3 <= score r <= 5 /\
    In msg_symbols (feedback r) /\
    (3 <= num_words ->
     score r = 5 /\ strength r = lit "Очень сильный" /\ feedback r = [msg_symbols]).
Proof.
  intros Hnum.
  set (n := Z.to_nat num_words).
  set (w' := boot ent (k + S n)).
  set (ws := map (fun i => pick words [] (ent i)) (seq k n)).
  set (sfx := str_of_int (Z.of_N (ent (k + n)%nat) mod 100)).
  assert (Hws : Forall (fun word => In word words) ws) by apply selected_words.
  assert (Hne : ws <> []).
  { unfold ws. destruct n as [| m] eqn:E; [lia | discriminate]. }
  assert (Hlenws : len ws = num_words)
    by (unfold ws, len; rewrite length_map, length_seq; lia).
  destruct (suffix_fact _ (suffix_bound (ent (k + n)%nat)))
    as (Hslen & Hsdig & _ & _ & Hssym).
  fold sfx in Hslen, Hsdig, Hssym.
  destruct (joined_words_letters ws Hne Hws) as (Hlow & Hupp).
  pose proof (joined_words_no_symbol ws Hws) as Hsym.
  pose proof (joined_words_len ws Hws) as Hlen. rewrite Hlenws in Hlen.
  destruct (check_password_strength_run ucd (join (map capitalize ws) ++ sfx) w')
    as (label & Hlabel & Hrun).
  exists (join (map capitalize ws) ++ sfx). eexists.
  split.
  { rewrite generate_memorable_password_run. cbn [entropy drawn boot].
    fold n. rewrite jump_boot. reflexivity. }
  split; [exact Hrun |]. cbn [score strength feedback].
  unfold points, advice in *. cbn [self boot w'] in *.
  rewrite !any_app, Hlow, Hupp, Hsdig, Hsym, Hssym, len_app, ?orb_true_r in *.
  cbn [orb Z.b2z app] in *.
  split; [| split].
  - pose proof (b2z_range (8 <=? len (join (map capitalize ws)) + len sfx)).
    pose proof (b2z_range (12 <=? len (join (map capitalize ws)) + len sfx)). lia.
  - apply in_or_app. right. left. reflexivity.
  - intros H3.
    assert (H8 : (8 <=? len (join (map capitalize ws)) + len sfx) = true)
      by (apply Z.leb_le; lia).
    assert (H12 : (12 <=? len (join (map capitalize ws)) + len sfx) = true)
      by (apply Z.leb_le; lia).
    rewrite H8, H12 in *. cbn [Z.b2z Z.add app] in *.
    split; [reflexivity |]. split; [| reflexivity].
    vm_compute in Hlabel. injection Hlabel as <-. reflexivity.
Qed.

(** X8: what [main] reports after generating a memorable password.  For
    a fresh instance and [num_words] of at least 1 the password always has
    lowercase letters, uppercase letters and digits and never a symbol:
    its score is between 3 and 5 and the feedback asks for symbols.  From
    3 words on, the default 4 included, the score is exactly 5 and the
    feedback is that one message. *)
Theorem memorable_password_score (ent : nat -> N) (k : nat) (num_words : Z) :
  1 <= num_words ->
  exists password r,
    generate_memorable_password num_words (boot ent k)
    = (Ok password, boot ent (k + S (Z.to_nat num_words))) /\
    check_password_strength ucd password (boot ent (k + S (Z.to_nat num_words)))
    = (Ok r, boot ent (k + S (Z.to_nat num_words))) /\
    3 <= score r <= 5 /\
    In msg_symbols (feedback r) /\
    (3 <= num_words ->
     score r = 5 /\ strength r = lit "Очень сильный" /\ feedback r = [msg_symbols]).
Proof. exact (memorable_password_scored ent k num_words). Qed.

(** X10: with [num_words] zero or negative the password is the numeric
    suffix alone; for a fresh instance only the digit check passes, so its
    score is 1 and every other feedback message is given. *)
Theorem memorable_password_no_words_score (ent : nat -> N) (k : nat) (num_words : Z) :
  num_words <= 0 ->
  exists password r,
    generate_memorable_password num_words (boot ent k) = (Ok password, boot ent (S k)) /\
    check_password_strength ucd password (boot ent (S k)) = (Ok r, boot ent (S k)) /\
    score r = 1 /\ strength r = lit "Слабый" /\
    feedback r = [msg_length; msg_lower; msg_upper; msg_symbols].
Proof.
  intros Hnum.
  set (sfx := str_of_int (Z.of_N (ent k) mod 100)).
  destruct (suffix_fact _ (suffix_bound (ent k))) as (Hslen & Hsdig & Hslow & Hsupp & Hssym).
  fold sfx in Hslen, Hsdig, Hslow, Hsupp, Hssym.
  destruct (check_password_strength_run ucd sfx (boot ent (S k)))
    as (label & Hlabel & Hrun).
  exists sfx. eexists. split.
  { rewrite generate_memorable_password_run.
    replace (Z.to_nat num_words) with 0%nat by lia.
    cbn [seq map join List.concat app jump entropy drawn boot].
    rewrite Nat.add_0_r. reflexivity. }
  split; [exact Hrun |]. cbn [score strength feedback].
  unfold points, advice in *. cbn [self boot] in *.
  assert (H8 : (8 <=? len sfx) = false) by (apply Z.leb_gt; lia).
  assert (H12 : (12 <=? len sfx) = false) by (apply Z.leb_gt; lia).
  rewrite H8, H12, Hsdig, Hslow, Hsupp, Hssym in *. cbn [Z.b2z Z.add app] in *.
  split; [reflexivity |]. split; [| reflexivity].
  vm_compute in Hlabel. injection Hlabel as <-. reflexivity.
Qed.

End MemorableScore.

Lemma memorable_password_score_witness :
  exists password r,
    generate_memorable_password 4 (boot always_42 0)
    = (Ok password, boot always_42 (0 + S (Z.to_nat 4))) /\
    check_password_strength (rt_ucd plain_runtime) password
      (boot always_42 (0 + S (Z.to_nat 4)))
    = (Ok r, boot always_42 (0 + S (Z.to_nat 4))) /\
    3 <= score r <= 5 /\
    In msg_symbols (feedback r) /\
    (3 <= 4 ->
     score r = 5 /\ strength r = lit "Очень сильный" /\ feedback r = [msg_symbols]).
Proof.
  apply (memorable_password_score (rt_ucd plain_runtime) always_42 0 4). lia.
Defined.

Lemma memorable_password_no_words_score_witness :
  exists password r,
    generate_memorable_password 0 (boot always_42 0) = (Ok password, boot always_42 1) /\
    check_password_strength (rt_ucd plain_runtime) password (boot always_42 1)
    = (Ok r, boot always_42 1) /\
    score r = 1 /\ strength r = lit "Слабый" /\
    feedback r = [msg_length; msg_lower; msg_upper; msg_symbols].
Proof.
  apply (memorable_password_no_words_score (rt_ucd plain_runtime) always_42 0 0). lia.
Defined.

(** X9: the length of a memorable password: every word has 4 to 8
    letters and the suffix 1 or 2 digits, so with [n] words ([n] being 0
    when [num_words] is not positive) the password has between [4n + 1]
    and [8n + 2] characters. *)
Theorem memorable_password_length (w : World) (num_words : Z) :
  exists password,
    fst (generate_memorable_password num_words w) = Ok password /\
    4 * Z.max 0 num_words + 1 <= len password <= 8 * Z.max 0 num_words + 2.
Proof.
  rewrite generate_memorable_password_run. eexists. split; [reflexivity |].
  set (ucd := {| ucd_lowercase := fun _ => false; ucd_uppercase := fun _ => false;
                 ucd_digit := fun _ => false |}).
  pose proof (joined_words_len ucd _
                (selected_words (entropy w) (seq (drawn w) (Z.to_nat num_words)))) as Hlen.
  destruct (suffix_fact ucd _ (suffix_bound (entropy w (drawn w + Z.to_nat num_words)%nat)))
    as (Hslen & _).
  rewrite len_app.
  assert (Hn : len (map (fun i => pick words [] (entropy w i))
                      (seq (drawn w) (Z.to_nat num_words))) = Z.max 0 num_words)
    by (unfold len; rewrite length_map, length_seq; lia).
  rewrite Hn in Hlen. lia.
Qed.

(** ** [main]: the rules of [safe] *)

Lemma jump_self n : forall w, self (jump n w) = self w.
Proof.
  induction n as [| n IH]; intros w; simpl; [reflexivity | now rewrite IH].
Qed.

Lemma str_eqb_eq (a : str) : forall b, str_eqb a b = true <-> a = b.
Proof.
  induction a as [| x a IH]; intros [| y b]; cbn [str_eqb]; split; intros H;
    try reflexivity; try discriminate H.
  - apply andb_prop in H as [Hx Hab]. apply N.eqb_eq in Hx. apply IH in Hab.
    now subst.
  - injection H as -> ->. rewrite N.eqb_refl. now apply IH.
Qed.

Lemma str_eqb_neq (a b : str) : a <> b -> str_eqb a b = false.
Proof.
  intros H. destruct (str_eqb a b) eqn:E; [| reflexivity].
  apply str_eqb_eq in E. contradiction.
Qed.

Section SafeRules.

Context {A B : Type}.
Variable caught : exn -> Prop.

Lemma safe_ret (a : A) (post : A -> list str -> Prop) :
  post a [] -> safe caught (io_ret a) post.
Proof.
  intros Hpost c w Hw. cbn. split; [exact Hw |]. exists []. auto.
Qed.

Lemma safe_bind (m : IO A) (k : A -> IO B)
    (mid : A -> list str -> Prop) (post : B -> list str -> Prop) :
  safe caught m mid ->
  (forall a used, mid a used -> safe caught (k a) (fun b used' => post b (used ++ used'))) ->
  safe caught (x <~ m ;; k x) post.
Proof.
  intros Hm Hk c w Hw. unfold io_bind. specialize (Hm c w Hw).
  destruct (m (c, w)) as [o [c1 w1]]. destruct Hm as (Hw1 & used & Hused & Ho).
  destruct o as [a | f].
  - specialize (Hk a used Ho c1 w1 Hw1).
    destruct (k a (c1, w1)) as [o2 [c2 w2]]. destruct Hk as (Hw2 & used2 & Hused2 & Ho2).
    split; [exact Hw2 |]. exists (used ++ used2). split.
    + rewrite Hused, Hused2. now rewrite app_assoc.
    + destruct o2 as [b | [e |]]; assumption.
  - split; [exact Hw1 |]. exists used. split; [exact Hused |].
    destruct f as [e |]; assumption.
Qed.

Lemma safe_weaken (m : IO A) (post post' : A -> list str -> Prop) :
  safe caught m post -> (forall a used, post a used -> post' a used) ->
  safe caught m post'.
Proof.
  intros Hm Himp c w Hw. specialize (Hm c w Hw).
  destruct (m (c, w)) as [o [c1 w1]]. destruct Hm as (Hw1 & used & Hused & Ho).
  split; [exact Hw1 |]. exists used. split; [exact Hused |].
  destruct o as [a | [e |]]; auto.
Qed.

(** A method that, on a fresh instance, returns or raises an exception
    among [caught], and leaves the instance as it is. *)
Lemma safe_call (m : M A) (post : A -> list str -> Prop) :
  (forall w, self w = init ->
     match m w with
     | (Ok a, w') => self w' = init /\ post a []
     | (Raise e, w') => self w' = init /\ caught e
     end) ->
  safe caught (call m) post.
Proof.
  intros Hm c w Hw. unfold call. specialize (Hm w Hw).
  destruct (m w) as [[a | e] w1]; destruct Hm as (Hw1 & H);
    (split; [exact Hw1 |]); exists []; auto.
Qed.

End SafeRules.

Lemma safe_print (caught : exn -> Prop) (s : str) (post : unit -> list str -> Prop) :
  post tt [] -> safe caught (print s) post.
Proof.
  intros Hpost c w Hw. cbn. split; [exact Hw |]. exists []. auto.
Qed.

Lemma safe_input (caught : exn -> Prop) (prompt : str) (post : str -> list str -> Prop) :
  (forall line, post line [line]) -> safe caught (input prompt) post.
Proof.
  intros Hpost c w Hw. unfold input. destruct (stdin c) as [| line rest] eqn:E.
  - split; [exact Hw |]. exists []. auto.
  - split; [exact Hw |]. exists [line]. cbn [stdin app]. auto.
Qed.

Lemma safe_print_then {B} (caught : exn -> Prop) (s : str) (k : IO B)
    (post : B -> list str -> Prop) :
  safe caught k post -> safe caught (_ <~ print s ;; k) post.
Proof.
  intros Hk. apply safe_bind with (mid := fun _ used => used = []).
  - now apply safe_print.
  - intros _ used ->. exact Hk.
Qed.

Lemma safe_input_then {B} (caught : exn -> Prop) (prompt : str) (k : str -> IO B)
    (post : B -> list str -> Prop) :
  (forall line, safe caught (k line) (fun b used => post b (line :: used))) ->
  safe caught (line <~ input prompt ;; k line) post.
Proof.
  intros Hk. apply safe_bind with (mid := fun line used => used = [line]).
  - now apply safe_input.
  - intros line used ->. apply Hk.
Qed.

Lemma safe_call_then {A B} (caught : exn -> Prop) (m : M A) (k : A -> IO B)
    (post : B -> list str -> Prop) :
  (forall w, self w = init ->
     match m w with
     | (Ok a, w') => self w' = init
     | (Raise e, w') => self w' = init /\ caught e
     end) ->
  (forall a, safe caught (k a) post) ->
  safe caught (x <~ call m ;; k x) post.
Proof.
  intros Hm Hk. apply safe_bind with (mid := fun _ used => used = []).
  - apply safe_call. intros w Hw. specialize (Hm w Hw).
    destruct (m w) as [[a | e] w1]; auto.
  - intros a used ->. apply Hk.
Qed.

Lemma safe_try (caught : exn -> Prop) (body handler : IO unit)
    (post post' : unit -> list str -> Prop) :
  safe (fun e => e = ValueError \/ caught e) body post ->
  safe caught handler post' ->
  safe caught (try_except_ValueError body handler) (fun _ _ => True).
Proof.
  intros Hbody Hhandler c w Hw. unfold try_except_ValueError.
  specialize (Hbody c w Hw).
  destruct (body (c, w)) as [o [c1 w1]]. destruct Hbody as (Hw1 & used & Hused & Ho).
  destruct o as [[] | [e |]].
  - split; [exact Hw1 |]. exists used. auto.
  - assert (Hother : self w1 = init /\
                     exists used0, stdin c = used0 ++ stdin c1 /\ (e <> ValueError -> caught e)).
    { split; [exact Hw1 |]. exists used. split; [exact Hused |].
      intros Hne. destruct Ho as [-> | Hc]; [congruence | exact Hc]. }
    destruct e.
    + destruct Hother as (_ & used0 & Hu & Hc). split; [exact Hw1 |].
      exists used0. split; [exact Hu |]. apply Hc. discriminate.
    + specialize (Hhandler c1 w1 Hw1).
      destruct (handler (c1, w1)) as [o2 [c2 w2]].
      destruct Hhandler as (Hw2 & used2 & Hused2 & Ho2).
      split; [exact Hw2 |]. exists (used ++ used2). split.
      * rewrite Hused, Hused2. now rewrite app_assoc.
      * destruct o2 as [[] | [e |]]; auto.
    + destruct Hother as (_ & used0 & Hu & Hc). split; [exact Hw1 |].
      exists used0. split; [exact Hu |]. apply Hc. discriminate.
  - split; [exact Hw1 |]. exists used. auto.
Qed.

Lemma safe_for_each {A} (caught : exn -> Prop) (f : A -> IO unit) (l : list A) :
  (forall x, safe caught (f x) (fun _ used => used = [])) ->
  safe caught (for_each f l) (fun _ used => used = []).
Proof.
  intros Hf. induction l as [| x rest IH]; cbn [for_each].
  - now apply safe_ret.
  - apply safe_bind with (mid := fun _ used => used = []); [apply Hf |].
    intros _ used ->. exact IH.
Qed.

(** ** [main]: it ends, and how *)

(** On a fresh instance the three methods return and leave the instance
    as it is. *)
Lemma generate_password_fresh (length : Z) (uu ud us ea : bool) (w : World) :
  self w = init ->
  exists password w',
    generate_password length uu ud us ea w = (Ok password, w') /\ self w' = init.
Proof.
  intros Hw. rewrite generate_password_run, Hw.
  rewrite (comprehension_choice _ 0%N _ (init_pool_nonempty uu ud us ea)).
  do 2 eexists. split; [reflexivity |]. now rewrite jump_self.
Qed.

Lemma generate_memorable_password_fresh (num_words : Z) (w : World) :
  self w = init ->
  exists password w',
    generate_memorable_password num_words w = (Ok password, w') /\ self w' = init.
Proof.
  intros Hw. rewrite generate_memorable_password_run.
  do 2 eexists. split; [reflexivity |]. now rewrite jump_self.
Qed.

Lemma int_of_str_cases (rt : Runtime) (s : str) :
  (exists n, int_of_str rt s = Ok n) \/ int_of_str rt s = Raise ValueError.
Proof.
  unfold int_of_str.
  destruct (len s =? 0); [now right |].
  destruct (plain_decimal s); [left; eauto |].
  destruct (rt_int rt s); [left; eauto | now right].
Qed.

Section MainSafety.

Variable rt : Runtime.

Lemma call_int_then {B} (caught : exn -> Prop) (s : str) (k : Z -> IO B)
    (post : B -> list str -> Prop) :
  caught ValueError ->
  (forall n, safe caught (k n) post) ->
  safe caught (n <~ call (fun w => (int_of_str rt s, w)) ;; k n) post.
Proof.
  intros Hcaught Hk. apply safe_call_then; [| exact Hk].
  intros w Hw. destruct (int_of_str_cases rt s) as [(n & ->) | ->]; auto.
Qed.

Lemma call_generate_password_then {B} (caught : exn -> Prop) (length : Z)
    (uu ud us ea : bool) (k : str -> IO B) (post : B -> list str -> Prop) :
  (forall password, safe caught (k password) post) ->
  safe caught (password <~ call (generate_password length uu ud us ea) ;; k password) post.
Proof.
  intros Hk. apply safe_call_then; [| exact Hk].
  intros w Hw. destruct (generate_password_fresh length uu ud us ea w Hw) as (pw & w' & -> & Hw').
  exact Hw'.
Qed.

Lemma call_generate_memorable_password_then {B} (caught : exn -> Prop) (num_words : Z)
    (k : str -> IO B) (post : B -> list str -> Prop) :
  (forall password, safe caught (k password) post) ->
  safe caught (password <~ call (generate_memorable_password num_words) ;; k password) post.
Proof.
  intros Hk. apply safe_call_then; [| exact Hk].
  intros w Hw. destruct (generate_memorable_password_fresh num_words w Hw) as (pw & w' & -> & Hw').
  exact Hw'.
Qed.

Lemma call_check_password_strength_then {B} (caught : exn -> Prop) (password : str)
    (k : StrengthResult -> IO B) (post : B -> list str -> Prop) :
  (forall st, safe caught (k st) post) ->
  safe caught (st <~ call (check_password_strength (rt_ucd rt) password) ;; k st) post.
Proof.
  intros Hk. apply safe_call_then; [| exact Hk].
  intros w Hw. destruct (check_password_strength_run (rt_ucd rt) password w) as (l & _ & ->).
  exact Hw.
Qed.

Ltac safe_step :=
  cbv zeta;
  lazymatch goal with
  | |- safe _ (io_bind (print _) _) _ => apply safe_print_then
  | |- safe _ (io_bind (input _) _) _ => apply safe_input_then; intros ?
  | |- safe _ (io_bind (call (generate_password _ _ _ _ _)) _) _ =>
      apply call_generate_password_then; intros ?
  | |- safe _ (io_bind (call (generate_memorable_password _)) _) _ =>
      apply call_generate_memorable_password_then; intros ?
  | |- safe _ (io_bind (call (check_password_strength _ _)) _) _ =>
      apply call_check_password_strength_then; intros ?
  | |- safe _ (io_bind (call _) _) _ => apply call_int_then; [now left | intros ?]
  | |- safe _ (print _) _ => apply safe_print; cbv beta; exact I
  end.

Lemma choice_1_safe : safe (fun _ => False) (choice_1 rt) (fun _ _ => True).
Proof.
  unfold choice_1.
  apply safe_try with (post := fun _ _ => True) (post' := fun _ _ => True).
  - repeat safe_step.
  - now apply safe_print.
Qed.

Lemma choice_2_safe : safe (fun _ => False) (choice_2 rt) (fun _ _ => True).
Proof.
  unfold choice_2.
  apply safe_try with (post := fun _ _ => True) (post' := fun _ _ => True).
  - repeat safe_step.
  - now apply safe_print.
Qed.

Lemma choice_3_safe : safe (fun _ => False) (choice_3 rt) (fun _ _ => True).
Proof.
  unfold choice_3. apply safe_input_then. intros [| c password].
  - now apply safe_print.
  - apply call_check_password_strength_then. intros st. apply safe_print_then.
    destruct (feedback st) as [| tip tips].
    + now apply safe_ret.
    + apply safe_print_then.
      apply safe_weaken with (post := fun _ used => used = []); [| trivial].
      apply safe_for_each. intros x. now apply safe_print.
Qed.

(** A round reads the choice first; it leaves the loop only on the
    choice ["4"]. *)
Lemma menu_round_safe :
  safe (fun _ => False) (menu_round rt)
    (fun fl used => exists choice rest,
                      used = choice :: rest /\ (fl = Break -> choice = lit "4" /\ rest = [])).
Proof.
  unfold menu_round. do 4 apply safe_print_then.
  apply safe_input_then. intros choice.
  apply safe_bind with (mid := fun fl used => fl = Break -> choice = lit "4" /\ used = []).
  - destruct (str_eqb choice (lit "1")).
    { apply safe_bind with (mid := fun _ _ => True); [apply choice_1_safe |].
      intros _ used _. apply safe_ret. discriminate. }
    destruct (str_eqb choice (lit "2")).
    { apply safe_bind with (mid := fun _ _ => True); [apply choice_2_safe |].
      intros _ used _. apply safe_ret. discriminate. }
    destruct (str_eqb choice (lit "3")).
    { apply safe_bind with (mid := fun _ _ => True); [apply choice_3_safe |].
      intros _ used _. apply safe_ret. discriminate. }
    destruct (str_eqb choice (lit "4")) eqn:E4.
    { apply str_eqb_eq in E4. apply safe_print_then. apply safe_ret. auto. }
    apply safe_print_then. apply safe_ret. discriminate.
  - intros fl used Hfl. destruct fl.
    + apply safe_print_then. apply safe_ret.
      exists choice, (used ++ []). split; [reflexivity | discriminate].
    + apply safe_ret. destruct (Hfl eq_refl) as (-> & ->).
      exists (lit "4"), []. auto.
Qed.

(** With more fuel than lines of input, the loop ends: on the choice
    ["4"], or with [EOFError] once the input is exhausted. *)
Lemma while_true_ends (fuel : nat) :
  forall c w,
    self w = init ->
    (List.length (stdin c) < fuel)%nat ->
    match while_true fuel (menu_round rt) (c, w) with
    | (o, (c', w')) =>
        exists used, stdin c = used ++ stdin c' /\
          match o with
          | Done Finished => In (lit "4") used
          | Done OutOfFuel => False
          | Failed EOFError => stdin c' = []
          | Failed (Uncaught _) => False
          end
    end.
Proof.
  induction fuel as [| fuel IH]; intros c w Hw Hfuel; [lia |].
  cbn [while_true]. unfold io_bind.
  pose proof (menu_round_safe c w Hw) as Hround.
  destruct (menu_round rt (c, w)) as [o [c1 w1]].
  destruct Hround as (Hw1 & used & Hused & Ho).
  destruct o as [[|] | [e |]].
  - destruct Ho as (choice & rest & -> & _).
    assert (Hshorter : (List.length (stdin c1) < fuel)%nat).
    { rewrite Hused in Hfuel. rewrite length_app in Hfuel. cbn [List.length] in Hfuel. lia. }
    specialize (IH c1 w1 Hw1 Hshorter).
    destruct (while_true fuel (menu_round rt) (c1, w1)) as [o2 [c2 w2]].
    destruct IH as (used2 & Hused2 & Ho2).
    exists ((choice :: rest) ++ used2). split.
    + rewrite Hused, Hused2. now rewrite app_assoc.
    + destruct o2 as [[|] | [e |]]; try assumption.
      apply in_or_app. now right.
  - destruct Ho as (choice & rest & -> & Hbreak).
    destruct (Hbreak eq_refl) as (-> & ->).
    exists [lit "4"]. split; [exact Hused |]. now left.
  - contradiction.
  - exists used. auto.
Qed.

End MainSafety.

(** Once the loop has ended within a bound on its rounds, a larger
    bound changes nothing. *)
Lemma while_true_more_fuel (body : IO flow) (fuel : nat) :
  forall s o s',
    while_true fuel body s = (o, s') ->
    o <> Done OutOfFuel ->
    forall more, while_true (fuel + more) body s = (o, s').
Proof.
  induction fuel as [| fuel IH]; intros s o s' Hrun Hne more.
  - cbn in Hrun. injection Hrun as <- _. congruence.
  - cbn [while_true Nat.add] in *. unfold io_bind in *.
    destruct (body s) as [[[|] | f] s1]; try exact Hrun.
    now apply IH.
Qed.

(** X11: [main] ends, and no exception of the methods leaves it.  Run for
    more rounds than there are lines of input, it either returns, which
    takes a line ["4"] among those it read, or it stops with the
    [EOFError] of [input] once every line is read; what it has not read
    is left on standard input, and a larger bound on the rounds gives the
    same result. *)
Theorem main_ends (rt : Runtime) (fuel : nat) (c : Console) (w : World) :
  (List.length (stdin c) < fuel)%nat ->
  exists used c' w',
    stdin c = used ++ stdin c' /\
    ((main rt fuel (c, w) = (Done Finished, (c', w')) /\ In (lit "4") used)
     \/ (main rt fuel (c, w) = (Failed EOFError, (c', w')) /\ stdin c' = []))
    /\ forall more, main rt (fuel + more) (c, w) = main rt fuel (c, w).
Proof.
  intros Hfuel. unfold main, io_bind, new_generator, print. cbv beta iota.
  set (c0 := {| stdin := stdin c; stdout := _ |}).
  set (w0 := {| self := init; entropy := entropy w; drawn := drawn w |}).
  pose proof (while_true_ends rt fuel c0 w0 eq_refl Hfuel) as H.
  pose proof (while_true_more_fuel (menu_round rt) fuel (c0, w0)) as Hmore.
  destruct (while_true fuel (menu_round rt) (c0, w0)) as [o [c' w']].
  destruct H as (used & Hused & Ho).
  exists used, c', w'. split; [exact Hused |].
  destruct o as [[|] | [e |]]; try contradiction.
  - split; [auto |]. intros more. now apply Hmore.
  - split; [auto |]. intros more. now apply Hmore.
Qed.

Lemma main_ends_witness :
  exists used c' w',
    [lit "3"; lit "abc"; lit "4"; lit "unread"] = used ++ stdin c' /\
    ((main plain_runtime 5
        ({| stdin := [lit "3"; lit "abc"; lit "4"; lit "unread"]; stdout := [] |},
         world_only_l)
      = (Done Finished, (c', w')) /\ In (lit "4") used)
     \/ (main plain_runtime 5
           ({| stdin := [lit "3"; lit "abc"; lit "4"; lit "unread"]; stdout := [] |},
            world_only_l)
         = (Failed EOFError, (c', w')) /\ stdin c' = []))
    /\ forall more,
         main plain_runtime (5 + more)
           ({| stdin := [lit "3"; lit "abc"; lit "4"; lit "unread"]; stdout := [] |},
            world_only_l)
         = main plain_runtime 5
             ({| stdin := [lit "3"; lit "abc"; lit "4"; lit "unread"]; stdout := [] |},
              world_only_l).
Proof.
  apply (main_ends plain_runtime 5
           {| stdin := [lit "3"; lit "abc"; lit "4"; lit "unread"]; stdout := [] |}
           world_only_l).
  cbn. lia.
Defined.

(** ** [main]: what a round writes *)

Lemma run_print {B} (s : str) (k : unit -> IO B) (c : Console) (w : World) :
  (x <~ print s ;; k x) (c, w)
  = k tt ({| stdin := stdin c; stdout := stdout c ++ s ++ nl |}, w).
Proof. reflexivity. Qed.

Lemma run_input {B} (prompt : str) (k : str -> IO B) (c : Console) (w : World)
    (line : str) (rest : list str) :
  stdin c = line :: rest ->
  (x <~ input prompt ;; k x) (c, w)
  = k line ({| stdin := rest; stdout := stdout c ++ prompt |}, w).
Proof. intros H. unfold io_bind, input. rewrite H. reflexivity. Qed.

Lemma run_call {A B} (m : M A) (k : A -> IO B) (c : Console) (w w' : World) (a : A) :
  m w = (Ok a, w') -> (x <~ call m ;; k x) (c, w) = k a (c, w').
Proof. intros H. unfold io_bind, call. rewrite H. reflexivity. Qed.

Lemma run_call_raise {A B} (m : M A) (k : A -> IO B) (c : Console) (w w' : World) (e : exn) :
  m w = (Raise e, w') -> (x <~ call m ;; k x) (c, w) = (Failed (Uncaught e), (c, w')).
Proof. intros H. unfold io_bind, call. rewrite H. reflexivity. Qed.

Lemma run_ret {A B} (a : A) (k : A -> IO B) (s : Console * World) :
  (x <~ io_ret a ;; k x) s = k a s.
Proof. reflexivity. Qed.

Lemma console_eq (rest : list str) (out out' : str) (w : World) {A} (a : A) :
  out = out' ->
  (Done a, ({| stdin := rest; stdout := out |}, w))
  = (Done a, ({| stdin := rest; stdout := out' |}, w)).
Proof. now intros ->. Qed.

Section Rounds.

Variable rt : Runtime.

(** The start of every round: the menu and the prompt are written and
    the choice is read. *)
Lemma menu_round_reads_choice (c : Console) (w : World) (choice : str) (rest : list str) :
  stdin c = choice :: rest ->
  menu_round rt (c, w)
  = (fl <~ (if str_eqb choice (lit "1") then _ <~ choice_1 rt ;; io_ret Continue
            else if str_eqb choice (lit "2") then _ <~ choice_2 rt ;; io_ret Continue
            else if str_eqb choice (lit "3") then _ <~ choice_3 rt ;; io_ret Continue
            else if str_eqb choice (lit "4")
                 then _ <~ print (lit "До свидания!") ;; io_ret Break
            else _ <~ print (lit "Неверный выбор. Попробуйте снова.") ;; io_ret Continue) ;;
     match fl with
     | Break => io_ret Break
     | Continue => _ <~ print (nl ++ str_mul (lit "=") 50 ++ nl) ;; io_ret Continue
     end)
      ({| stdin := rest; stdout := stdout c ++ menu_text |}, w).
Proof.
  intros H. unfold menu_round. rewrite !run_print.
  rewrite (run_input _ _ _ _ choice rest) by exact H.
  cbn [stdin stdout]. unfold menu_text.
  repeat rewrite <- app_assoc. reflexivity.
Qed.

(** X12: a choice other than 1, 2, 3 and 4 is answered with the
    invalid-choice message and the separator; the round reads that one
    line, calls no method and the loop goes on. *)
Theorem menu_round_invalid_choice (c : Console) (w : World) (choice : str)
    (rest : list str) :
  stdin c = choice :: rest ->
  choice <> lit "1" -> choice <> lit "2" -> choice <> lit "3" -> choice <> lit "4" ->
  menu_round rt (c, w)
  = (Done Continue,
     ({| stdin := rest;
         stdout := stdout c ++ menu_text
                   ++ lit "Неверный выбор. Попробуйте снова." ++ nl
                   ++ separator_text |}, w)).
Proof.
  intros H H1 H2 H3 H4. rewrite (menu_round_reads_choice c w choice rest H).
  rewrite !str_eqb_neq by assumption.
  cbv beta iota delta [io_bind print io_ret]. cbn [stdin stdout].
  apply console_eq. unfold separator_text.
  repeat rewrite <- app_assoc. reflexivity.
Qed.

(** X13: [main] does not score an empty password: on the choice 3
    followed by an empty line the round writes that the password cannot
    be empty, then the separator, and goes on. *)
Theorem menu_round_empty_password (c : Console) (w : World) (rest : list str) :
  stdin c = lit "3" :: [] :: rest ->
  menu_round rt (c, w)
  = (Done Continue,
     ({| stdin := rest;
         stdout := stdout c ++ menu_text
                   ++ lit "Введите пароль для проверки: "
                   ++ lit "Пароль не может быть пустым" ++ nl
                   ++ separator_text |}, w)).
Proof.
  intros H. rewrite (menu_round_reads_choice c w (lit "3") (([] : str) :: rest) H).
  change (str_eqb (lit "3") (lit "1")) with false.
  change (str_eqb (lit "3") (lit "2")) with false.
  change (str_eqb (lit "3") (lit "3")) with true.
  cbv beta iota delta [choice_3 io_bind print input io_ret]. cbn [stdin stdout].
  apply console_eq. unfold separator_text.
  repeat rewrite <- app_assoc. reflexivity.
Qed.

End Rounds.

(** ** [main]: what the branches write *)

Lemma check_password_strength_nil (ucd : UnicodeData) (w : World) :
  check_password_strength ucd [] w
  = (Ok {| score := 0; strength := lit "Очень слабый";
           feedback := [msg_length; msg_lower; msg_upper; msg_digits; msg_symbols] |}, w).
Proof. reflexivity. Qed.

Lemma strength_line_0 (fb : list str) :
  strength_line {| score := 0; strength := lit "Очень слабый"; feedback := fb |}
  = lit "Сила пароля: Очень слабый (0/6)".
Proof. reflexivity. Qed.

Lemma strength_line_5 (st : StrengthResult) :
  score st = 5 -> strength st = lit "Очень сильный" ->
  strength_line st = lit "Сила пароля: Очень сильный (5/6)".
Proof. intros Hs Hl. unfold strength_line. rewrite Hs, Hl. reflexivity. Qed.

Section Branches.

Variable rt : Runtime.

(** X14: a length or a word count that [int] rejects is answered with
    the error message; the branch has read that one line, asks nothing
    more, draws nothing and the loop goes on. *)
Theorem invalid_number_is_reported (c : Console) (w : World) (line : str)
    (rest : list str) :
  stdin c = line :: rest ->
  (int_of_str rt (str_or line (lit "12")) = Raise ValueError ->
   choice_1 rt (c, w)
   = (Done tt,
      ({| stdin := rest;
          stdout := stdout c ++ lit "Длина пароля (по умолчанию 12): "
                    ++ lit "Ошибка: введите корректное число" ++ nl |}, w)))
  /\
  (int_of_str rt (str_or line (lit "4")) = Raise ValueError ->
   choice_2 rt (c, w)
   = (Done tt,
      ({| stdin := rest;
          stdout := stdout c ++ lit "Количество слов (по умолчанию 4): "
                    ++ lit "Ошибка: введите корректное число" ++ nl |}, w))).
Proof.
  intros H. split; intros Hint.
  - cbv beta iota zeta delta [choice_1 try_except_ValueError io_bind input call].
    rewrite H. cbv beta iota. rewrite Hint. cbv beta iota delta [print].
    cbn [stdin stdout]. apply console_eq. now rewrite <- app_assoc.
  - cbv beta iota zeta delta [choice_2 try_except_ValueError io_bind input call].
    rewrite H. cbv beta iota. rewrite Hint. cbv beta iota delta [print].
    cbn [stdin stdout]. apply console_eq. now rewrite <- app_assoc.
Qed.

(** X15: [main] accepts a length of zero or less: after the four
    questions it writes an empty password and rates it 0 of 6, with
    nothing drawn; no error is reported. *)
Theorem nonpositive_length_is_accepted (c : Console) (w : World)
    (line a1 a2 a3 a4 : str) (rest : list str) (n : Z) :
  stdin c = line :: a1 :: a2 :: a3 :: a4 :: rest ->
  int_of_str rt (str_or line (lit "12")) = Ok n ->
  n <= 0 ->
  choice_1 rt (c, w)
  = (Done tt,
     ({| stdin := rest;
         stdout := stdout c ++ lit "Длина пароля (по умолчанию 12): "
                   ++ lit "Использовать заглавные буквы? (y/n): "
                   ++ lit "Использовать цифры? (y/n): "
                   ++ lit "Использовать символы? (y/n): "
                   ++ lit "Исключить двусмысленные символы? (y/n): "
                   ++ nl ++ lit "Сгенерированный пароль: " ++ nl
                   ++ lit "Сила пароля: Очень слабый (0/6)" ++ nl |}, w)).
Proof.
  intros H Hint Hn.
  cbv beta iota zeta delta [choice_1 try_except_ValueError io_bind input call].
  rewrite H. cbv beta iota. rewrite Hint. cbv beta iota delta [stdin stdout].
  rewrite generate_password_run, (range_nonpositive n Hn).
  cbv beta iota delta [comprehension ret print stdin stdout].
  rewrite check_password_strength_nil. cbv beta iota delta [print stdin stdout].
  rewrite strength_line_0.
  apply console_eq. rewrite app_nil_r. repeat rewrite <- app_assoc. reflexivity.
Qed.

(** X16: with three words or more, the default four included, [main]
    always reports the memorable password as level 5 of 6. *)
Theorem memorable_password_is_rated_5 (ent : nat -> N) (k : nat) (c : Console)
    (line : str) (rest : list str) (n : Z) :
  stdin c = line :: rest ->
  int_of_str rt (str_or line (lit "4")) = Ok n ->
  3 <= n ->
  exists password,
    generate_memorable_password n (boot ent k)
    = (Ok password, boot ent (k + S (Z.to_nat n))) /\
    choice_2 rt (c, boot ent k)
    = (Done tt,
       ({| stdin := rest;
           stdout := stdout c ++ lit "Количество слов (по умолчанию 4): "
                     ++ nl ++ lit "Запоминающийся пароль: " ++ password ++ nl
                     ++ lit "Сила пароля: Очень сильный (5/6)" ++ nl |},
        boot ent (k + S (Z.to_nat n)))).
Proof.
  intros H Hint Hn.
  destruct (memorable_password_scored (rt_ucd rt) ent k n) as
    (password & r & Hgen & Hcheck & _ & _ & Hfive); [lia |].
  destruct (Hfive Hn) as (Hscore & Hlabel & _).
  exists password. split; [exact Hgen |].
  cbv beta iota zeta delta [choice_2 try_except_ValueError io_bind input call].
  rewrite H. cbv beta iota. rewrite Hint. cbv beta iota.
  rewrite Hgen. cbv beta iota delta [print stdin stdout].
  rewrite Hcheck. cbv beta iota delta [print stdin stdout].
  rewrite (strength_line_5 r Hscore Hlabel).
  apply console_eq. repeat rewrite <- app_assoc. reflexivity.
Qed.

End Branches.

Lemma invalid_number_is_reported_witness :
  choice_1 plain_runtime
    ({| stdin := [lit "abc"; lit "4"]; stdout := [] |}, world_only_l)
  = (Done tt,
     ({| stdin := [lit "4"];
         stdout := [] ++ lit "Длина пароля (по умолчанию 12): "
                   ++ lit "Ошибка: введите корректное число" ++ nl |}, world_only_l)).
Proof.
  apply (proj1 (invalid_number_is_reported plain_runtime
                  {| stdin := [lit "abc"; lit "4"]; stdout := [] |} world_only_l
                  (lit "abc") [lit "4"] eq_refl)).
  reflexivity.
Defined.

Lemma nonpositive_length_is_accepted_witness :
  choice_1 plain_runtime
    ({| stdin := [lit "0"; lit "y"; lit "n"; []; lit "Y"; lit "4"]; stdout := [] |},
     boot always_42 0)
  = (Done tt,
     ({| stdin := [lit "4"];
         stdout := [] ++ lit "Длина пароля (по умолчанию 12): "
                   ++ lit "Использовать заглавные буквы? (y/n): "
                   ++ lit "Использовать цифры? (y/n): "
                   ++ lit "Использовать символы? (y/n): "
                   ++ lit "Исключить двусмысленные символы? (y/n): "
                   ++ nl ++ lit "Сгенерированный пароль: " ++ nl
                   ++ lit "Сила пароля: Очень слабый (0/6)" ++ nl |}, boot always_42 0)).
Proof.
  apply (nonpositive_length_is_accepted plain_runtime
           {| stdin := [lit "0"; lit "y"; lit "n"; []; lit "Y"; lit "4"]; stdout := [] |}
           (boot always_42 0) (lit "0") (lit "y") (lit "n") [] (lit "Y") [lit "4"] 0).
  - reflexivity.
  - reflexivity.
  - lia.
Defined.

Lemma memorable_password_is_rated_5_witness :
  exists password,
    generate_memorable_password 4 (boot always_42 0)
    = (Ok password, boot always_42 (0 + S (Z.to_nat 4))) /\
    choice_2 plain_runtime ({| stdin := [[]; lit "4"]; stdout := [] |}, boot always_42 0)
    = (Done tt,
       ({| stdin := [lit "4"];
           stdout := [] ++ lit "Количество слов (по умолчанию 4): "
                     ++ nl ++ lit "Запоминающийся пароль: " ++ password ++ nl
                     ++ lit "Сила пароля: Очень сильный (5/6)" ++ nl |},
        boot always_42 (0 + S (Z.to_nat 4)))).
Proof.
  apply (memorable_password_is_rated_5 plain_runtime always_42 0
           {| stdin := [[]; lit "4"]; stdout := [] |} [] [lit "4"] 4).
  - reflexivity.
  - reflexivity.
  - lia.
Defined.

Lemma menu_round_invalid_choice_witness :
  menu_round plain_runtime ({| stdin := [lit "5"; lit "4"]; stdout := [] |}, world_only_l)
  = (Done Continue,
     ({| stdin := [lit "4"];
         stdout := [] ++ menu_text
                   ++ lit "Неверный выбор. Попробуйте снова." ++ nl
                   ++ separator_text |}, world_only_l)).
Proof.
  apply (menu_round_invalid_choice plain_runtime
           {| stdin := [lit "5"; lit "4"]; stdout := [] |} world_only_l (lit "5") [lit "4"]);
    [reflexivity | discriminate | discriminate | discriminate | discriminate].
Defined.

Lemma menu_round_empty_password_witness :
  menu_round plain_runtime ({| stdin := [lit "3"; []; lit "4"]; stdout := [] |}, world_only_l)
  = (Done Continue,
     ({| stdin := [lit "4"];
         stdout := [] ++ menu_text
                   ++ lit "Введите пароль для проверки: "
                   ++ lit "Пароль не может быть пустым" ++ nl
                   ++ separator_text |}, world_only_l)).
Proof.
  apply (menu_round_empty_password plain_runtime
           {| stdin := [lit "3"; []; lit "4"]; stdout := [] |} world_only_l [lit "4"]).
  reflexivity.
Defined.

(** ** [main]: the answers, the tips and the exit *)

(** On an ASCII answer, [answer.lower() == t] for a one-letter [t]. *)
Lemma lower_is_letter (rt : Runtime) (answer : str) (small : N) :
  forallb (fun c => (c <? 128)%N) answer = true ->
  between 97 122 small = true ->
  str_eqb (lower rt answer) [small]
  = str_eqb answer [small] || str_eqb answer [(small - 32)%N].
Proof.
  intros Hascii Hsmall. unfold lower. rewrite Hascii.
  unfold between in Hsmall. apply andb_prop in Hsmall as [Hlo Hhi].
  apply N.leb_le in Hlo, Hhi.
  destruct answer as [| c [| d rest]]; [reflexivity | | ].
  - cbn [map str_eqb]. rewrite !andb_true_r. unfold ascii_lower, between.
    destruct (N.leb_spec 65 c), (N.leb_spec c 90); cbn [andb];
      destruct (N.eqb_spec c small), (N.eqb_spec c (small - 32));
      destruct (N.eqb_spec (c + 32) small); cbn [orb]; try reflexivity; lia.
  - cbn [map str_eqb]. now rewrite !andb_false_r.
Qed.

(** The tips of the choice 3, one line each. *)
Lemma run_tips (tips : list str) (c : Console) (w : World) :
  for_each (fun tip => print (lit "  • " ++ tip)) tips (c, w)
  = (Done tt,
     ({| stdin := stdin c;
         stdout := stdout c
                   ++ List.concat (map (fun tip => lit "  • " ++ tip ++ nl) tips) |}, w)).
Proof.
  revert c. induction tips as [| tip tips IH]; intros c.
  - cbn [for_each map List.concat]. unfold io_ret. rewrite app_nil_r.
    destruct c; reflexivity.
  - cbn [for_each map List.concat]. rewrite run_print, IH. cbn [stdin stdout].
    apply console_eq. repeat rewrite <- app_assoc. reflexivity.
Qed.

Section Answers.

Variable rt : Runtime.

(** X17: the whole of the choice 1 on ASCII answers.  A class is used
    unless its answer is [n] or [N], the empty answer included; the
    ambiguous characters are excluded only on [y] or [Y].  The branch
    writes the password that [generate_password] returns for the length
    read and these flags, then the level and score that
    [check_password_strength] gives it. *)
Theorem choice_1_generates (ent : nat -> N) (k : nat) (c : Console)
    (line a1 a2 a3 a4 : str) (rest : list str) (n : Z) :
  stdin c = line :: a1 :: a2 :: a3 :: a4 :: rest ->
  int_of_str rt (str_or line (lit "12")) = Ok n ->
  forallb (forallb (fun ch => (ch <? 128)%N)) [a1; a2; a3; a4] = true ->
  exists password st,
    generate_password n
      (negb (str_eqb a1 (lit "n") || str_eqb a1 (lit "N")))
      (negb (str_eqb a2 (lit "n") || str_eqb a2 (lit "N")))
      (negb (str_eqb a3 (lit "n") || str_eqb a3 (lit "N")))
      (str_eqb a4 (lit "y") || str_eqb a4 (lit "Y"))
      (boot ent k)
    = (Ok password, boot ent (k + Z.to_nat n)) /\
    check_password_strength (rt_ucd rt) password (boot ent (k + Z.to_nat n))
    = (Ok st, boot ent (k + Z.to_nat n)) /\
    choice_1 rt (c, boot ent k)
    = (Done tt,
       ({| stdin := rest;
           stdout := stdout c ++ lit "Длина пароля (по умолчанию 12): "
                     ++ lit "Использовать заглавные буквы? (y/n): "
                     ++ lit "Использовать цифры? (y/n): "
                     ++ lit "Использовать символы? (y/n): "
                     ++ lit "Исключить двусмысленные символы? (y/n): "
                     ++ nl ++ lit "Сгенерированный пароль: " ++ password ++ nl
                     ++ strength_line st ++ nl |},
        boot ent (k + Z.to_nat n))).
Proof.
  intros H Hint Hascii.
  cbn [forallb] in Hascii.
  apply andb_prop in Hascii as [H1 Hascii]. apply andb_prop in Hascii as [H2 Hascii].
  apply andb_prop in Hascii as [H3 Hascii]. apply andb_prop in Hascii as [H4 _].
  set (uu := negb (str_eqb a1 (lit "n") || str_eqb a1 (lit "N"))).
  set (ud := negb (str_eqb a2 (lit "n") || str_eqb a2 (lit "N"))).
  set (us := negb (str_eqb a3 (lit "n") || str_eqb a3 (lit "N"))).
  set (ea := str_eqb a4 (lit "y") || str_eqb a4 (lit "Y")).
  pose proof (generate_password_init_run ent k n uu ud us ea) as Hgen.
  set (password := map _ _) in Hgen.
  destruct (check_password_strength_run (rt_ucd rt) password (boot ent (k + Z.to_nat n)))
    as (label & _ & Hcheck).
  exists password. eexists. split; [exact Hgen |]. split; [exact Hcheck |].
  cbv beta iota zeta delta [choice_1 try_except_ValueError io_bind input call].
  rewrite H. cbv beta iota. rewrite Hint. cbv beta iota delta [stdin stdout].
  change (lit "n") with [110%N]. change (lit "y") with [121%N].
  rewrite (lower_is_letter rt a1 110 H1 eq_refl), (lower_is_letter rt a2 110 H2 eq_refl),
    (lower_is_letter rt a3 110 H3 eq_refl), (lower_is_letter rt a4 121 H4 eq_refl).
  change [110%N] with (lit "n"). change [(110 - 32)%N] with (lit "N").
  change [121%N] with (lit "y"). change [(121 - 32)%N] with (lit "Y").
  fold uu ud us ea. rewrite Hgen. cbv beta iota delta [print stdin stdout].
  rewrite Hcheck. cbv beta iota delta [print stdin stdout].
  apply console_eq. repeat rewrite <- app_assoc. reflexivity.
Qed.

(** X18: the whole of the choice 3 on a password that is not empty: the
    branch writes the level and the score, and, when there is feedback,
    the heading and one line per message, in the order of the checks; it
    draws nothing and changes nothing. *)
Theorem choice_3_reports (c : Console) (w : World) (password : str) (rest : list str) :
  stdin c = password :: rest ->
  password <> [] ->
  exists st,
    check_password_strength (rt_ucd rt) password w = (Ok st, w) /\
    choice_3 rt (c, w)
    = (Done tt,
       ({| stdin := rest;
           stdout := stdout c ++ lit "Введите пароль для проверки: "
                     ++ nl ++ strength_line st ++ nl
                     ++ match feedback st with
                        | [] => []
                        | _ :: _ =>
                            lit "Рекомендации:" ++ nl
                            ++ List.concat
                                 (map (fun tip => lit "  • " ++ tip ++ nl) (feedback st))
                        end |}, w)).
Proof.
  intros H Hne.
  destruct (check_password_strength_run (rt_ucd rt) password w) as (label & _ & Hcheck).
  eexists. split; [exact Hcheck |].
  destruct password as [| ch password']; [congruence |].
  unfold choice_3. rewrite (run_input _ _ _ _ _ _ H). cbv beta iota.
  rewrite (run_call _ _ _ _ _ _ Hcheck). rewrite run_print. cbn [feedback stdin stdout].
  destruct (advice (rt_ucd rt) (symbols (self w)) (ch :: password')) as [| tip tips].
  - unfold io_ret. apply console_eq. rewrite app_nil_r.
    repeat rewrite <- app_assoc. reflexivity.
  - rewrite run_print, run_tips. cbn [stdin stdout].
    apply console_eq. repeat rewrite <- app_assoc. reflexivity.
Qed.

(** X19: on the choice 4 [main] writes the farewell and returns: no
    separator is written and the lines after the choice are left unread. *)
Theorem main_exits (c : Console) (w : World) (rest : list str) (fuel : nat) :
  stdin c = lit "4" :: rest ->
  main rt (S fuel) (c, w)
  = (Done Finished,
     ({| stdin := rest;
         stdout := stdout c ++ lit "=== ГЕНЕРАТОР ПАРОЛЕЙ ===" ++ nl ++ nl
                   ++ menu_text ++ lit "До свидания!" ++ nl |},
      {| self := init; entropy := entropy w; drawn := drawn w |})).
Proof.
  intros H. unfold main. unfold io_bind at 1. unfold new_generator. cbv beta iota.
  rewrite run_print. cbn [while_true]. unfold io_bind at 1.
  rewrite (menu_round_reads_choice rt _ _ (lit "4") rest) by exact H.
  change (str_eqb (lit "4") (lit "1")) with false.
  change (str_eqb (lit "4") (lit "2")) with false.
  change (str_eqb (lit "4") (lit "3")) with false.
  change (str_eqb (lit "4") (lit "4")) with true.
  cbv beta iota delta [io_bind print io_ret]. cbn [stdin stdout].
  apply console_eq. repeat rewrite <- app_assoc. reflexivity.
Qed.

End Answers.

Lemma choice_1_generates_witness :
  exists password st,
    generate_password 8
      (negb (str_eqb (lit "y") (lit "n") || str_eqb (lit "y") (lit "N")))
      (negb (str_eqb (lit "N") (lit "n") || str_eqb (lit "N") (lit "N")))
      (negb (str_eqb [] (lit "n") || str_eqb [] (lit "N")))
      (str_eqb (lit "Y") (lit "y") || str_eqb (lit "Y") (lit "Y"))
      (boot always_42 0)
    = (Ok password, boot always_42 (0 + Z.to_nat 8)) /\
    check_password_strength (rt_ucd plain_runtime) password (boot always_42 (0 + Z.to_nat 8))
    = (Ok st, boot always_42 (0 + Z.to_nat 8)) /\
    choice_1 plain_runtime
      ({| stdin := [lit "8"; lit "y"; lit "N"; []; lit "Y"; lit "4"]; stdout := [] |},
       boot always_42 0)
    = (Done tt,
       ({| stdin := [lit "4"];
           stdout := [] ++ lit "Длина пароля (по умолчанию 12): "
                     ++ lit "Использовать заглавные буквы? (y/n): "
                     ++ lit "Использовать цифры? (y/n): "
                     ++ lit "Использовать символы? (y/n): "
                     ++ lit "Исключить двусмысленные символы? (y/n): "
                     ++ nl ++ lit "Сгенерированный пароль: " ++ password ++ nl
                     ++ strength_line st ++ nl |},
        boot always_42 (0 + Z.to_nat 8))).
Proof.
  apply (choice_1_generates plain_runtime always_42 0
           {| stdin := [lit "8"; lit "y"; lit "N"; []; lit "Y"; lit "4"]; stdout := [] |}
           (lit "8") (lit "y") (lit "N") [] (lit "Y") [lit "4"] 8);
    reflexivity.
Defined.

Lemma choice_3_reports_witness :
  exists st,
    check_password_strength (rt_ucd plain_runtime) (lit "abc") world_only_l
    = (Ok st, world_only_l) /\
    choice_3 plain_runtime ({| stdin := [lit "abc"; lit "4"]; stdout := [] |}, world_only_l)
    = (Done tt,
       ({| stdin := [lit "4"];
           stdout := [] ++ lit "Введите пароль для проверки: "
                     ++ nl ++ strength_line st ++ nl
                     ++ match feedback st with
                        | [] => []
                        | _ :: _ =>
                            lit "Рекомендации:" ++ nl
                            ++ List.concat
                                 (map (fun tip => lit "  • " ++ tip ++ nl) (feedback st))
                        end |}, world_only_l)).
Proof.
  apply (choice_3_reports plain_runtime
           {| stdin := [lit "abc"; lit "4"]; stdout := [] |} world_only_l
           (lit "abc") [lit "4"]);
    [reflexivity | discriminate].
Defined.

Lemma main_exits_witness :
  main plain_runtime 1 ({| stdin := [lit "4"; lit "unread"]; stdout := [] |}, world_only_l)
  = (Done Finished,
     ({| stdin := [lit "unread"];
         stdout := [] ++ lit "=== ГЕНЕРАТОР ПАРОЛЕЙ ===" ++ nl ++ nl
                   ++ menu_text ++ lit "До свидания!" ++ nl |},
      {| self := init; entropy := entropy world_only_l; drawn := drawn world_only_l |})).
Proof.
  apply (main_exits plain_runtime
           {| stdin := [lit "4"; lit "unread"]; stdout := [] |} world_only_l
           [lit "unread"] 0).
  reflexivity.
Defined.
